(** * The todo list manager of [src/App.tsx]

    A shallow embedding of the state held by the [App] component and of
    its event handlers.  The component state is a record; each handler is
    a computation in a small state monad over that record extended with
    the environment the handlers act on: the log of calls made to the
    todo service, the promises still awaiting the network, the pending
    [setTimeout] callbacks with a logical clock in milliseconds, and the
    input element the handlers focus. *)

From Stdlib Require Import List ZArith NArith Bool String Lia Permutation.
Import ListNotations.

(** ** Data *)

(** A JavaScript string is a sequence of UTF-16 code units.  Titles come
    from the user and are trimmed, so they are kept as code units; the
    notification texts are ASCII literals of the source and are kept as
    [string]. *)
Definition JSString := list N.

(** [types/Todo]: the object literal built in [handleAddTodo] gives the
    four fields. *)
Record Todo : Type := mkTodo {
  id : Z;
  title : JSString;
  userId : Z;
  completed : bool
}.

(** Modelled from the spec: [types/Filter] is not among the sources; the
    spec gives the enumeration [{All, Active, Completed}], and [App.tsx]
    names exactly these three members. *)
Inductive Filter : Type := All | Active | Completed.

(** [api/todos.ts] *)
Definition USER_ID : Z := 2159.

(** The body of a [POST /todos]: a todo without its id. *)
Record NewTodo : Type := mkNewTodo {
  newTitle : JSString;
  newUserId : Z;
  newCompleted : bool
}.

(** Calls of the todo service, as [api/todos.ts] exposes them. *)
Inductive Request : Type :=
| GetTodos
| CreateTodo (body : NewTodo)
| DeleteTodo (todoId : Z).

(** What a promise is rejected with: a bare string (as in
    [Promise.reject('Title is empty')]) or an [Error] object carrying a
    message (as in [throw new Error(error)]). *)
Inductive Reason : Type :=
| RString (s : string)
| RError (message : string).

(** [String(reason)], which [new Error(error)] applies to its argument:
    a string is itself, an [Error] prints as its name and message. *)
Definition toStr (r : Reason) : string :=
  match r with
  | RString s => s
  | RError EmptyString => "Error"
  | RError m => ("Error: " ++ m)%string
  end.

(** A settled promise. *)
Inductive Settled (A : Type) : Type :=
| Fulfilled (a : A)
| Rejected (r : Reason).
Arguments Fulfilled {A} a.
Arguments Rejected {A} r.

(** What a handler hands back to its caller: a promise that is already
    settled, a promise that settles when the network call the handler
    has just made settles, or nothing ([undefined]). *)
Inductive Returned : Type :=
| Already (o : Settled unit)
| Awaiting
| Undefined.

(** A promise chain waiting for its network call: which handler built it
    and the id captured in its closure. *)
Inductive Pending : Type :=
| PLoad
| PAdd
| PDelete (todoId : Z)
| PClear (todoId : Z).

(** ** State *)

Record State : Type := mkState {
  (* the six [useState] cells *)
  todosFromServer : list Todo;
  filter : Filter;
  errorMessage : string;
  isNotificationHidden : bool;
  tempTodo : option Todo;
  deletingTodoIds : list Z;
  (* the environment *)
  requests : list Request;   (* every service call made so far, oldest first *)
  inflight : list Pending;   (* chains whose call has not settled yet *)
  now : N;                   (* logical clock, ms *)
  timers : list N;           (* due times of the pending timeouts *)
  inputRef : bool;           (* [inputRef.current] is set *)
  focusCalls : nat           (* how often [focus()] was called *)
}.

Definition initialState : State :=
  mkState [] All "" true None [] [] [] 0 [] true 0.

(** ** The monad of handlers *)

Definition M (A : Type) : Type := State -> A * State.

Definition ret {A} (a : A) : M A := fun s => (a, s).

Definition bind {A B} (c : M A) (k : A -> M B) : M B :=
  fun s => let (a, s') := c s in k a s'.

Declare Scope handler_scope.
Delimit Scope handler_scope with handler.
Notation "x <- c ;; k" := (bind c (fun x => k))
  (at level 61, c at next level, right associativity) : handler_scope.
Notation "c ;; k" := (bind c (fun _ => k))
  (at level 61, right associativity) : handler_scope.
Open Scope handler_scope.

Definition exec {A} (c : M A) (s : State) : State := snd (c s).
Definition result {A} (c : M A) (s : State) : A := fst (c s).

Definition get {A} (f : State -> A) : M A := fun s => (f s, s).

(** *** State setters *)

(** [setTodosFromServer] is always called with an updater function in the
    handlers, and with the fetched list by the initial load. *)
Definition setTodosFromServer (f : list Todo -> list Todo) : M unit :=
  fun s => (tt,
    mkState (f (todosFromServer s)) (filter s) (errorMessage s)
            (isNotificationHidden s) (tempTodo s) (deletingTodoIds s)
            (requests s) (inflight s) (now s) (timers s)
            (inputRef s) (focusCalls s)).

Definition setFilter (f : Filter) : M unit :=
  fun s => (tt,
    mkState (todosFromServer s) f (errorMessage s)
            (isNotificationHidden s) (tempTodo s) (deletingTodoIds s)
            (requests s) (inflight s) (now s) (timers s)
            (inputRef s) (focusCalls s)).

Definition setErrorMessage (m : string) : M unit :=
  fun s => (tt,
    mkState (todosFromServer s) (filter s) m
            (isNotificationHidden s) (tempTodo s) (deletingTodoIds s)
            (requests s) (inflight s) (now s) (timers s)
            (inputRef s) (focusCalls s)).

Definition setIsNotificationHidden (b : bool) : M unit :=
  fun s => (tt,
    mkState (todosFromServer s) (filter s) (errorMessage s)
            b (tempTodo s) (deletingTodoIds s)
            (requests s) (inflight s) (now s) (timers s)
            (inputRef s) (focusCalls s)).

Definition setTempTodo (t : option Todo) : M unit :=
  fun s => (tt,
    mkState (todosFromServer s) (filter s) (errorMessage s)
            (isNotificationHidden s) t (deletingTodoIds s)
            (requests s) (inflight s) (now s) (timers s)
            (inputRef s) (focusCalls s)).

Definition setDeletingTodoIds (ids : list Z) : M unit :=
  fun s => (tt,
    mkState (todosFromServer s) (filter s) (errorMessage s)
            (isNotificationHidden s) (tempTodo s) ids
            (requests s) (inflight s) (now s) (timers s)
            (inputRef s) (focusCalls s)).

(** *** The environment *)

(** Calling a function of [todoService]: the call is logged and the chain
    built on its promise waits for the settlement. *)
Definition call (r : Request) (p : Pending) : M unit :=
  fun s => (tt,
    mkState (todosFromServer s) (filter s) (errorMessage s)
            (isNotificationHidden s) (tempTodo s) (deletingTodoIds s)
            (requests s ++ [r]) (inflight s ++ [p]) (now s) (timers s)
            (inputRef s) (focusCalls s)).

(** [setTimeout(cb, delay)].  The source has one timeout callback, the
    one of [showErrorMessage], so a pending timeout is its due time. *)
Definition setTimeout (delay : N) : M unit :=
  fun s => (tt,
    mkState (todosFromServer s) (filter s) (errorMessage s)
            (isNotificationHidden s) (tempTodo s) (deletingTodoIds s)
            (requests s) (inflight s) (now s) (timers s ++ [now s + delay]%N)
            (inputRef s) (focusCalls s)).

(** [if (inputRef.current) { inputRef.current.focus(); }] *)
Definition focusInput : M unit :=
  fun s => (tt,
    mkState (todosFromServer s) (filter s) (errorMessage s)
            (isNotificationHidden s) (tempTodo s) (deletingTodoIds s)
            (requests s) (inflight s) (now s) (timers s)
            (inputRef s)
            (if inputRef s then S (focusCalls s) else focusCalls s)).

(** *** Promise chains

    A chain [.then(f).catch(g).finally(h)] runs when the promise it hangs
    on settles; each link maps the settlement it receives to the one it
    passes on.  A handler that throws passes on a rejection. *)

Definition p_then {A B} (p : Settled A) (f : A -> M B) : M (Settled B) :=
  match p with
  | Fulfilled a => b <- f a ;; ret (Fulfilled b)
  | Rejected r => ret (Rejected r)
  end.

Definition p_catch {A} (p : Settled A) (g : Reason -> M (Settled A))
  : M (Settled A) :=
  match p with
  | Fulfilled a => ret (Fulfilled a)
  | Rejected r => g r
  end.

Definition p_finally {A} (p : Settled A) (h : M unit) : M (Settled A) :=
  h ;; ret p.

(** [throw new Error(error)] inside a handler. *)
Definition throwError {A} (error : Reason) : M (Settled A) :=
  ret (Rejected (RError (toStr error))).

(** ** [String.prototype.trim] *)

(** The code units ECMAScript strips: WhiteSpace (TAB, VT, FF, SP, NBSP,
    ZWNBSP and the space separators) and LineTerminator (LF, CR, LS, PS). *)
Definition isWhiteSpace (c : N) : bool :=
  ((c =? 9) || (c =? 10) || (c =? 11) || (c =? 12) || (c =? 13) ||
   (c =? 32) || (c =? 160) || (c =? 5760) ||
   ((8192 <=? c) && (c <=? 8202)) ||
   (c =? 8232) || (c =? 8233) || (c =? 8239) || (c =? 8287) ||
   (c =? 12288) || (c =? 65279))%N.

Fixpoint trimStart (s : JSString) : JSString :=
  match s with
  | [] => []
  | c :: rest => if isWhiteSpace c then trimStart rest else s
  end.

Definition trimEnd (s : JSString) : JSString := rev (trimStart (rev s)).

Definition trim (s : JSString) : JSString := trimEnd (trimStart s).

(** ** The component *)

Definition showErrorMessage (message : string) : M unit :=
  setErrorMessage message ;;
  setIsNotificationHidden false ;;
  setTimeout 3000.

(** The callback [showErrorMessage] hands to [setTimeout]. *)
Definition timeoutCallback : M unit :=
  setErrorMessage "" ;;
  setIsNotificationHidden true.

Definition filterTodos (todos : list Todo) (filterBy : Filter) : list Todo :=
  match filterBy with
  | Completed => List.filter (fun todo => completed todo) todos
  | Active => List.filter (fun todo => negb (completed todo)) todos
  | _ => todos
  end.

Definition visibleTodos (s : State) : list Todo :=
  filterTodos (todosFromServer s) (filter s).

Definition activeTodosCount (s : State) : nat :=
  List.length (List.filter (fun todo => negb (completed todo)) (todosFromServer s)).

Definition allTodosCompleted (s : State) : bool :=
  (activeTodosCount s =? 0)%nat.

Definition hasCompletedTodos (s : State) : bool :=
  existsb (fun todo => completed todo) (todosFromServer s).

(** *** Adding *)

Definition handleAddTodo (title : JSString) : M Returned :=
  setErrorMessage "" ;;
  let trimmedTitle := trim title in
  if (List.length trimmedTitle =? 0)%nat then
    showErrorMessage "Title should not be empty" ;;
    ret (Already (Rejected (RString "Title is empty")))
  else
    setTempTodo (Some (mkTodo 0 trimmedTitle USER_ID false)) ;;
    call (CreateTodo (mkNewTodo trimmedTitle USER_ID false)) PAdd ;;
    ret Awaiting.

(** The chain on [createTodo(...)], run when that call settles; its value
    is the settlement of the promise [handleAddTodo] returned. *)
Definition settleAdd (p : Settled Todo) : M (Settled unit) :=
  p1 <- p_then p (fun newTodo =>
          setTodosFromServer (fun currentTodos => currentTodos ++ [newTodo])) ;;
  p2 <- p_catch p1 (fun error =>
          showErrorMessage "Unable to add a todo" ;;
          throwError error) ;;
  p_finally p2 (setTempTodo None).

(** *** Deleting *)

Definition handleDeleteTodo (todoId : Z) : M Returned :=
  setDeletingTodoIds [todoId] ;;
  call (DeleteTodo todoId) (PDelete todoId) ;;
  ret Awaiting.

Definition settleDelete (todoId : Z) (p : Settled unit) : M (Settled unit) :=
  p1 <- p_then p (fun _ =>
          setTodosFromServer
            (fun curr => List.filter (fun todo => negb (id todo =? todoId)%Z) curr)) ;;
  p2 <- p_catch p1 (fun error =>
          showErrorMessage "Unable to delete a todo" ;;
          throwError error) ;;
  p_finally p2 (setDeletingTodoIds [] ;; focusInput).

(** *** Clearing the completed todos *)

(** [ids.map(id => todoService.deleteTodo(id).then(...)...)]: the calls
    are made one after the other, synchronously, inside the handler. *)
Fixpoint callEach (ids : list Z) : M unit :=
  match ids with
  | [] => ret tt
  | i :: rest => call (DeleteTodo i) (PClear i) ;; callEach rest
  end.

Definition handleClearCompletedTodos : M Returned :=
  todos <- get todosFromServer ;;
  let completedTodoIds :=
    map id (List.filter (fun todo => completed todo) todos) in
  setDeletingTodoIds completedTodoIds ;;
  callEach completedTodoIds ;;
  ret Undefined.

(** The chain on each [deleteTodo(id)] of the batch. *)
Definition settleClear (i : Z) (p : Settled unit) : M (Settled unit) :=
  p1 <- p_then p (fun _ =>
          setTodosFromServer
            (fun curr => List.filter (fun todo => negb (id todo =? i)%Z) curr)) ;;
  p2 <- p_catch p1 (fun error =>
          showErrorMessage "Unable to delete a todo" ;;
          throwError error) ;;
  p_finally p2 (setDeletingTodoIds [] ;; focusInput).

(** *** The initial load ([useEffect] with no dependencies) *)

Definition mount : M unit := call GetTodos PLoad.

Definition settleLoad (p : Settled (list Todo)) : M (Settled unit) :=
  p1 <- p_then p (fun todos => setTodosFromServer (fun _ => todos)) ;;
  p_catch p1 (fun _ =>
    showErrorMessage "Unable to load todos" ;;
    ret (Fulfilled tt)).

(** ** Events *)

(** What the network answers to a call. *)
Inductive Response : Type :=
| Listed (p : Settled (list Todo))
| Created (p : Settled Todo)
| Deleted (p : Settled unit).

Inductive Event : Type :=
| Mount
| Add (title : JSString)
| Delete (todoId : Z)
| ClearCompleted
| SetFilter (f : Filter)
| CloseNotification (hidden : bool)
| Settle (n : nat) (r : Response)   (* the n-th call in flight settles *)
| Elapse (ms : N).                  (* time passes *)

Fixpoint removeNth {A} (n : nat) (l : list A) : list A :=
  match n, l with
  | _, [] => []
  | O, _ :: rest => rest
  | S m, x :: rest => x :: removeNth m rest
  end.

Definition dequeue (n : nat) : M unit :=
  fun s => (tt,
    mkState (todosFromServer s) (filter s) (errorMessage s)
            (isNotificationHidden s) (tempTodo s) (deletingTodoIds s)
            (requests s) (removeNth n (inflight s)) (now s) (timers s)
            (inputRef s) (focusCalls s)).

(** The n-th call in flight settles with [r]: its chain runs.  An answer
    of the wrong shape for that call is not an event of the system. *)
Definition settle (n : nat) (r : Response) : M unit :=
  fun s =>
    match nth_error (inflight s) n, r with
    | Some PLoad, Listed p => (dequeue n ;; settleLoad p ;; ret tt) s
    | Some PAdd, Created p => (dequeue n ;; settleAdd p ;; ret tt) s
    | Some (PDelete i), Deleted p => (dequeue n ;; settleDelete i p ;; ret tt) s
    | Some (PClear i), Deleted p => (dequeue n ;; settleClear i p ;; ret tt) s
    | _, _ => (tt, s)
    end.

Fixpoint fire (due : list N) : M unit :=
  match due with
  | [] => ret tt
  | _ :: rest => timeoutCallback ;; fire rest
  end.

(** [ms] milliseconds pass: the timeouts that have come due run, oldest
    first, and leave the timer list. *)
Definition elapse (ms : N) : M unit :=
  fun s =>
    let t := (now s + ms)%N in
    let due := List.filter (fun d => (d <=? t)%N) (timers s) in
    let rest := List.filter (fun d => negb (d <=? t)%N) (timers s) in
    fire due
      (mkState (todosFromServer s) (filter s) (errorMessage s)
               (isNotificationHidden s) (tempTodo s) (deletingTodoIds s)
               (requests s) (inflight s) t rest
               (inputRef s) (focusCalls s)).

Definition step (e : Event) (s : State) : State :=
  match e with
  | Mount => exec mount s
  | Add t => exec (handleAddTodo t) s
  | Delete i => exec (handleDeleteTodo i) s
  | ClearCompleted => exec handleClearCompletedTodos s
  | SetFilter f => exec (setFilter f) s
  | CloseNotification b => exec (setIsNotificationHidden b) s
  | Settle n r => exec (settle n r) s
  | Elapse ms => exec (elapse ms) s
  end.

Definition run (evs : list Event) (s : State) : State :=
  fold_left (fun acc e => step e acc) evs s.

(** Events that are no intent of the user and no start-up: a call
    settling, time passing. *)
Definition isSettlement (e : Event) : bool :=
  match e with
  | Settle _ _ | Elapse _ => true
  | _ => false
  end.

(** ** The views as the specification words them *)

(** Which todos a filter lets through: [Active] those with
    [completed == false], [Completed] those with [completed == true],
    [All] every one. *)
Definition selects (f : Filter) (todo : Todo) : bool :=
  match f with
  | All => true
  | Active => Bool.eqb (completed todo) false
  | Completed => Bool.eqb (completed todo) true
  end.

Definition visibleSpec (f : Filter) (todos : list Todo) : list Todo :=
  List.filter (selects f) todos.

(** [l] is [l'] with some elements left out, the others in their order. *)
Inductive Subseq {A : Type} : list A -> list A -> Prop :=
| Subseq_nil : Subseq [] []
| Subseq_skip : forall x l l', Subseq l l' -> Subseq l (x :: l')
| Subseq_keep : forall x l l', Subseq l l' -> Subseq (x :: l) (x :: l').

(** The placeholder shown while a create call is in flight. *)
Definition placeholder (trimmedTitle : JSString) : Todo :=
  mkTodo 0 trimmedTitle USER_ID false.

(** Sample data for the scenarios. *)
Definition buy : JSString := [98; 117; 121]%N.
Definition blank : JSString := [32; 32]%N.

Definition sampleTodos : list Todo :=
  [mkTodo 1 buy USER_ID false; mkTodo 2 buy USER_ID true].

Definition doneTodos : list Todo :=
  [mkTodo 1 buy USER_ID true; mkTodo 2 buy USER_ID true].

Definition withTodos (todos : list Todo) (f : Filter) : State :=
  exec (setFilter f) (exec (setTodosFromServer (fun _ => todos)) initialState).

(** ** Batches and invariants *)

Definition isFulfilled {A} (p : Settled A) : bool :=
  match p with
  | Fulfilled _ => true
  | Rejected _ => false
  end.

(** The chains of a batch running one after the other, in the order in
    which their calls settle, each with the outcome of its call. *)
Fixpoint settleEach (outcomes : list (Z * Settled unit)) : M unit :=
  match outcomes with
  | [] => ret tt
  | (i, p) :: rest => settleClear i p ;; settleEach rest
  end.

(** The ids whose call succeeded, and how many calls failed. *)
Definition succeeded (outcomes : list (Z * Settled unit)) : list Z :=
  map fst (List.filter (fun o => isFulfilled (snd o)) outcomes).

Definition failures (outcomes : list (Z * Settled unit)) : nat :=
  List.length (List.filter (fun o => negb (isFulfilled (snd o))) outcomes).

Definition memZ (i : Z) (l : list Z) : bool := existsb (Z.eqb i) l.

(** The only events whose handler can reach a [setTodosFromServer]: a
    call settling with success. *)
Definition isFulfilledSettle (e : Event) : bool :=
  match e with
  | Settle _ (Listed p) => isFulfilled p
  | Settle _ (Created p) => isFulfilled p
  | Settle _ (Deleted p) => isFulfilled p
  | _ => false
  end.

(** [onClose] used to show the notification rather than to hide it. *)
Definition reopensNotification (e : Event) : bool :=
  match e with
  | CloseNotification false => true
  | _ => false
  end.

(** Every pending timeout is due within three seconds. *)
Definition timersWithin (s : State) : Prop :=
  Forall (fun d => (d <= now s + 3000)%N) (timers s).

(** A message on display has a timeout pending that will blank it. *)
Definition messageHasTimer (s : State) : Prop :=
  errorMessage s <> ""%string -> timers s <> [].

(** A visible notification has a timeout pending that will hide it. *)
Definition visibleHasTimer (s : State) : Prop :=
  isNotificationHidden s = false -> timers s <> [].

(** The placeholder is there only while a create call is in flight. *)
Definition placeholderAwaited (s : State) : Prop :=
  tempTodo s <> None -> In PAdd (inflight s).

(** Every id marked as being deleted has a delete call in flight. *)
Definition deletingAwaited (s : State) : Prop :=
  forall i, In i (deletingTodoIds s) ->
            In (PDelete i) (inflight s) \/ In (PClear i) (inflight s).

(** The todos an event brings from the server: the payload of a call
    settling with success. *)
Definition deliveredBy (e : Event) : list Todo :=
  match e with
  | Settle _ (Listed (Fulfilled todos)) => todos
  | Settle _ (Created (Fulfilled todo)) => [todo]
  | _ => []
  end.

Definition delivered (evs : list Event) : list Todo :=
  flat_map deliveredBy evs.

(** A title with text at both ends. *)
Definition trimmedText (t : JSString) : Prop :=
  t <> [] /\
  match t with [] => True | c :: _ => isWhiteSpace c = false end /\
  match rev t with [] => True | c :: _ => isWhiteSpace c = false end.

(** A create call for this user, not completed, with a trimmed title. *)
Definition wellFormedCall (r : Request) : Prop :=
  match r with
  | CreateTodo body =>
      newUserId body = USER_ID /\ newCompleted body = false /\
      trimmedText (newTitle body)
  | _ => True
  end.

(** A placeholder: id 0, this user, not completed, a trimmed title. *)
Definition wellFormedPlaceholder (t : option Todo) : Prop :=
  match t with
  | Some todo =>
      id todo = 0%Z /\ userId todo = USER_ID /\ completed todo = false /\
      trimmedText (title todo)
  | None => True
  end.

(** ** Scenarios of the specification *)

Example scenario_views :
  let s := withTodos sampleTodos Completed in
  visibleTodos s = [mkTodo 2 buy USER_ID true] /\
  activeTodosCount s = 1 /\
  allTodosCompleted s = false /\
  hasCompletedTodos s = true.
Proof. repeat split. Qed.

Example scenario_blank_title :
  let s := withTodos sampleTodos All in
  let s' := step (Add blank) s in
  errorMessage s' = "Title should not be empty"%string /\
  todosFromServer s' = sampleTodos /\
  requests s' = [].
Proof. repeat split. Qed.

Example scenario_delete_fails :
  let s := run [Delete 1; Settle 0 (Deleted (Rejected (RString "offline")))]
               (withTodos sampleTodos All) in
  todosFromServer s = sampleTodos /\
  errorMessage s = "Unable to delete a todo"%string /\
  deletingTodoIds s = [].
Proof. repeat split. Qed.

Example trim_inner_space :
  trim [32; 97; 32; 98; 10]%N = [97; 32; 98]%N.
Proof. reflexivity. Qed.

(** ** Lists *)

Lemma filter_all (A : Type) (l : list A) :
  List.filter (fun _ => true) l = l.
Proof.
  induction l as [|x l IH]; simpl; [reflexivity | now rewrite IH].
Qed.

Lemma Subseq_refl (A : Type) (l : list A) : Subseq l l.
Proof.
  induction l as [|x l IH]; [apply Subseq_nil | now apply Subseq_keep].
Qed.

Lemma Subseq_filter (A : Type) (p : A -> bool) (l : list A) :
  Subseq (List.filter p l) l.
Proof.
  induction l as [|x l IH]; simpl.
  - apply Subseq_nil.
  - destruct (p x); [now apply Subseq_keep | now apply Subseq_skip].
Qed.

Lemma filter_ext_bool (A : Type) (p q : A -> bool) (l : list A) :
  (forall x, p x = q x) -> List.filter p l = List.filter q l.
Proof.
  intros E; induction l as [|x l IH]; simpl; [reflexivity|].
  now rewrite E, IH.
Qed.

(** Removing by an id no element carries changes nothing. *)
Lemma filter_absent_id (i : Z) (todos : list Todo) :
  ~ In i (map id todos) ->
  List.filter (fun todo => negb (id todo =? i)%Z) todos = todos.
Proof.
  induction todos as [|t todos IH]; simpl; intros H; [reflexivity|].
  destruct (Z.eqb_spec (id t) i) as [E|E]; simpl.
  - exfalso; apply H; now left.
  - rewrite IH; [reflexivity | intros Hin; apply H; now right].
Qed.

Lemma in_filter_id (i : Z) (todos : list Todo) (t : Todo) :
  In t (List.filter (fun todo => negb (id todo =? i)%Z) todos) <->
  In t todos /\ id t <> i.
Proof.
  rewrite filter_In.
  destruct (Z.eqb_spec (id t) i); simpl; intuition congruence.
Qed.

(** With distinct ids, removing a present id removes one element. *)
Lemma filter_present_id_length (i : Z) (todos : list Todo) :
  NoDup (map id todos) -> In i (map id todos) ->
  S (List.length (List.filter (fun todo => negb (id todo =? i)%Z) todos))
  = List.length todos.
Proof.
  induction todos as [|t todos IH]; simpl; intros ND Hin; [contradiction|].
  inversion ND as [|x l Hx ND']; subst.
  destruct (Z.eqb_spec (id t) i) as [E|E]; simpl.
  - subst i. rewrite filter_absent_id by exact Hx. reflexivity.
  - destruct Hin as [Hin|Hin]; [contradiction|].
    rewrite IH by assumption. reflexivity.
Qed.

(** ** The visible list *)

Lemma filterTodos_spec (f : Filter) (todos : list Todo) :
  filterTodos todos f = visibleSpec f todos.
Proof.
  unfold visibleSpec; destruct f; simpl.
  - symmetry; apply filter_all.
  - apply filter_ext_bool; intros t; unfold selects; now destruct (completed t).
  - apply filter_ext_bool; intros t; unfold selects; now destruct (completed t).
Qed.

(** C8: in every state the manager can be in -- any sequence of events
    from any starting state, under any filter -- [visibleTodos] is the
    specification's filter predicate applied to the current todos
    ([Active]: not completed, [Completed]: completed, [All]: all of
    them), and the todos it shows stand in the order they have in
    [todos]. *)
Theorem visibleTodos_is_pure_filter :
  forall (evs : list Event) (s0 : State),
    let s := run evs s0 in
    visibleTodos s = visibleSpec (filter s) (todosFromServer s) /\
    Subseq (visibleTodos s) (todosFromServer s) /\
    filterTodos (todosFromServer s) All = todosFromServer s.
Proof.
  intros evs s0 s.
  unfold visibleTodos.
  rewrite filterTodos_spec.
  repeat split.
  apply Subseq_filter.
Qed.

(** ** Settlements and the calls in flight *)

Lemma nth_error_last (A : Type) (l : list A) (x : A) :
  nth_error (l ++ [x]) (List.length l) = Some x.
Proof.
  rewrite nth_error_app2 by apply Nat.le_refl.
  now rewrite Nat.sub_diag.
Qed.

Lemma removeNth_last (A : Type) (l : list A) (x : A) :
  removeNth (List.length l) (l ++ [x]) = l.
Proof.
  induction l as [|y l IH]; simpl; [reflexivity | now rewrite IH].
Qed.

Lemma settle_add (n : nat) (p : Settled Todo) (s : State) :
  nth_error (inflight s) n = Some PAdd ->
  exec (settle n (Created p)) s = exec (settleAdd p) (exec (dequeue n) s).
Proof.
  intros H. unfold exec, settle. rewrite H. unfold bind, dequeue.
  now destruct (settleAdd p _).
Qed.

Lemma settle_delete (n : nat) (i : Z) (p : Settled unit) (s : State) :
  nth_error (inflight s) n = Some (PDelete i) ->
  exec (settle n (Deleted p)) s = exec (settleDelete i p) (exec (dequeue n) s).
Proof.
  intros H. unfold exec, settle. rewrite H. unfold bind, dequeue.
  now destruct (settleDelete i p _).
Qed.

Lemma settle_clear (n : nat) (i : Z) (p : Settled unit) (s : State) :
  nth_error (inflight s) n = Some (PClear i) ->
  exec (settle n (Deleted p)) s = exec (settleClear i p) (exec (dequeue n) s).
Proof.
  intros H. unfold exec, settle. rewrite H. unfold bind, dequeue.
  now destruct (settleClear i p _).
Qed.

(** ** Adding *)

Lemma handleAddTodo_valid (title : JSString) (s : State) :
  trim title <> [] ->
  handleAddTodo title s =
  (Awaiting,
   exec (call (CreateTodo (mkNewTodo (trim title) USER_ID false)) PAdd)
     (exec (setTempTodo (Some (placeholder (trim title))))
        (exec (setErrorMessage "") s))).
Proof.
  intros H. unfold handleAddTodo, bind, exec; simpl.
  destruct (trim title) as [|c l]; [contradiction | reflexivity].
Qed.

Lemma handleAddTodo_empty (title : JSString) (s : State) :
  trim title = [] ->
  handleAddTodo title s =
  (Already (Rejected (RString "Title is empty")),
   exec (showErrorMessage "Title should not be empty") s).
Proof.
  intros H. unfold handleAddTodo, bind, exec; simpl.
  now rewrite H.
Qed.

Lemma add_then_settle (title : JSString) (p : Settled Todo) (s : State) :
  trim title <> [] ->
  run [Add title; Settle (List.length (inflight s)) (Created p)] s =
  exec (settleAdd p)
    (exec (dequeue (List.length (inflight s))) (exec (handleAddTodo title) s)).
Proof.
  intros H.
  change (run [Add title; Settle (List.length (inflight s)) (Created p)] s)
    with (exec (settle (List.length (inflight s)) (Created p))
            (exec (handleAddTodo title) s)).
  apply settle_add.
  unfold exec at 1. rewrite (handleAddTodo_valid title s H).
  simpl. apply nth_error_last.
Qed.

(** C5: for a title that is not empty once trimmed, [add] shows the
    placeholder and makes one create call; when that call succeeds the
    todo the server returned is appended to the end of [todos], the
    todos already there keeping their places, and when it fails [todos]
    stays as it is; in both outcomes the placeholder is gone
    afterwards. *)
Theorem add_appends_server_todo :
  forall (title : JSString) (s s' : State) (newTodo : Todo) (r : Reason),
    trim title <> [] ->
    (* the intent *)
    result (handleAddTodo title) s = Awaiting /\
    todosFromServer (exec (handleAddTodo title) s) = todosFromServer s /\
    tempTodo (exec (handleAddTodo title) s) = Some (placeholder (trim title)) /\
    requests (exec (handleAddTodo title) s) =
      requests s ++ [CreateTodo (mkNewTodo (trim title) USER_ID false)] /\
    (* the call succeeds, in whatever state [s'] the manager is by then *)
    todosFromServer (exec (settleAdd (Fulfilled newTodo)) s') =
      todosFromServer s' ++ [newTodo] /\
    tempTodo (exec (settleAdd (Fulfilled newTodo)) s') = None /\
    (* the call fails *)
    todosFromServer (exec (settleAdd (Rejected r)) s') = todosFromServer s' /\
    tempTodo (exec (settleAdd (Rejected r)) s') = None /\
    (* the intent followed at once by the answer to its call *)
    (let done := run [Add title;
                      Settle (List.length (inflight s)) (Created (Fulfilled newTodo))] s in
     todosFromServer done = todosFromServer s ++ [newTodo] /\
     tempTodo done = None /\ inflight done = inflight s) /\
    (let failed := run [Add title;
                        Settle (List.length (inflight s)) (Created (Rejected r))] s in
     todosFromServer failed = todosFromServer s /\
     tempTodo failed = None /\ inflight failed = inflight s).
Proof.
  intros title s s' newTodo r H.
  unfold result, exec at 1 2 3.
  rewrite (handleAddTodo_valid title s H).
  repeat split;
    rewrite (add_then_settle title _ s H); unfold exec at 3;
    rewrite (handleAddTodo_valid title s H);
    try reflexivity; simpl; apply removeNth_last.
Qed.

Lemma add_appends_server_todo_witness :
  let s := withTodos sampleTodos All in
  let t := mkTodo 7 buy USER_ID false in
  trim (32 :: buy)%N <> [] /\
  todosFromServer
    (run [Add (32 :: buy)%N; Settle 0 (Created (Fulfilled t))] s)
  = sampleTodos ++ [t].
Proof.
  split; [discriminate|].
  refine (proj1 (proj1 (proj2 (proj2 (proj2 (proj2 (proj2 (proj2 (proj2 (proj2
    (@add_appends_server_todo (32 :: buy)%N (withTodos sampleTodos All)
       initialState (mkTodo 7 buy USER_ID false) (RString "") _))))))))))).
  discriminate.
Defined.

(** C6: for a title that is empty once trimmed, [add] raises "Title
    should not be empty", returns a promise that is already rejected,
    makes no service call and leaves [todos] (and the placeholder)
    untouched. *)
Theorem add_blank_title_rejected_locally :
  forall (title : JSString) (s : State),
    trim title = [] ->
    let s' := exec (handleAddTodo title) s in
    result (handleAddTodo title) s
      = Already (Rejected (RString "Title is empty")) /\
    errorMessage s' = "Title should not be empty"%string /\
    isNotificationHidden s' = false /\
    requests s' = requests s /\
    inflight s' = inflight s /\
    todosFromServer s' = todosFromServer s /\
    tempTodo s' = tempTodo s.
Proof.
  intros title s H s'. subst s'.
  unfold result, exec.
  rewrite (handleAddTodo_empty title s H).
  repeat split.
Qed.

Lemma add_blank_title_rejected_locally_witness :
  trim blank = [] /\
  errorMessage (exec (handleAddTodo blank) (withTodos sampleTodos All))
    = "Title should not be empty"%string /\
  requests (exec (handleAddTodo blank) (withTodos sampleTodos All)) = [].
Proof.
  split; [reflexivity|].
  pose proof (@add_blank_title_rejected_locally blank
                (withTodos sampleTodos All) eq_refl) as H.
  split; [exact (proj1 (proj2 H)) | exact (proj1 (proj2 (proj2 (proj2 H))))].
Defined.

(** ** Deleting *)

Lemma delete_then_settle (i : Z) (p : Settled unit) (s : State) :
  run [Delete i; Settle (List.length (inflight s)) (Deleted p)] s =
  exec (settleDelete i p)
    (exec (dequeue (List.length (inflight s))) (exec (handleDeleteTodo i) s)).
Proof.
  change (run [Delete i; Settle (List.length (inflight s)) (Deleted p)] s)
    with (exec (settle (List.length (inflight s)) (Deleted p))
            (exec (handleDeleteTodo i) s)).
  apply settle_delete. simpl. apply nth_error_last.
Qed.

Lemma filter_present_id_shorter (i : Z) (todos : list Todo) :
  In i (map id todos) ->
  (List.length (List.filter (fun todo => negb (id todo =? i)%Z) todos)
   < List.length todos)%nat.
Proof.
  induction todos as [|t todos IH]; simpl; intros Hin; [contradiction|].
  destruct (Z.eqb_spec (id t) i) as [E|E]; simpl.
  - apply Nat.lt_succ_r, filter_length_le.
  - destruct Hin as [Hin|Hin]; [contradiction|].
    apply -> Nat.succ_lt_mono. now apply IH.
Qed.

Lemma filter_id_absent_after (i : Z) (todos : list Todo) :
  ~ In i (map id (List.filter (fun todo => negb (id todo =? i)%Z) todos)).
Proof.
  rewrite in_map_iff. intros [t [E Hin]].
  apply in_filter_id in Hin. now destruct Hin.
Qed.

(** With distinct ids in [todos], a successful delete of a present id
    makes the list exactly one shorter. *)
Lemma settleDelete_one_shorter (i : Z) (s : State) :
  NoDup (map id (todosFromServer s)) -> In i (map id (todosFromServer s)) ->
  S (List.length (todosFromServer (exec (settleDelete i (Fulfilled tt)) s)))
  = List.length (todosFromServer s).
Proof. intros ND Hin. simpl. now apply filter_present_id_length. Qed.

(** C7: for an id present in [todos], a delete whose call succeeds
    leaves exactly the todos with another id, in their order, so the
    list no longer holds the id; a delete whose call fails leaves [todos]
    as it was and raises "Unable to delete a todo"; after either
    settlement [deletingIds] is empty.  The first conjuncts run the
    intent and the answer to its call back to back, the last ones take
    the settlement in any state [s']. *)
Theorem delete_removes_exactly_that_id :
  forall (todoId : Z) (s s' : State) (r : Reason),
    In todoId (map id (todosFromServer s)) ->
    let ok := run [Delete todoId;
                   Settle (List.length (inflight s)) (Deleted (Fulfilled tt))] s in
    let ko := run [Delete todoId;
                   Settle (List.length (inflight s)) (Deleted (Rejected r))] s in
    (forall t, In t (todosFromServer ok) <->
               In t (todosFromServer s) /\ id t <> todoId) /\
    Subseq (todosFromServer ok) (todosFromServer s) /\
    ~ In todoId (map id (todosFromServer ok)) /\
    (List.length (todosFromServer ok) < List.length (todosFromServer s))%nat /\
    deletingTodoIds ok = [] /\
    todosFromServer ko = todosFromServer s /\
    errorMessage ko = "Unable to delete a todo"%string /\
    isNotificationHidden ko = false /\
    deletingTodoIds ko = [] /\
    todosFromServer (exec (settleDelete todoId (Fulfilled tt)) s') =
      List.filter (fun todo => negb (id todo =? todoId)%Z) (todosFromServer s') /\
    deletingTodoIds (exec (settleDelete todoId (Fulfilled tt)) s') = [] /\
    todosFromServer (exec (settleDelete todoId (Rejected r)) s') =
      todosFromServer s' /\
    deletingTodoIds (exec (settleDelete todoId (Rejected r)) s') = [].
Proof.
  intros todoId s s' r Hin ok ko. subst ok ko.
  rewrite !delete_then_settle.
  split; [|split; [|split; [|split]]].
  - intros t. simpl. apply in_filter_id.
  - simpl. apply Subseq_filter.
  - simpl. apply filter_id_absent_after.
  - simpl. now apply filter_present_id_shorter.
  - repeat split.
Qed.

Lemma delete_removes_exactly_that_id_witness :
  In 1%Z (map id sampleTodos) /\
  ~ In 1%Z (map id (todosFromServer
      (run [Delete 1; Settle 0 (Deleted (Fulfilled tt))]
           (withTodos sampleTodos All)))) /\
  todosFromServer
    (run [Delete 1; Settle 0 (Deleted (Rejected (RString "offline")))]
         (withTodos sampleTodos All))
  = sampleTodos.
Proof.
  split; [now left|].
  pose proof (@delete_removes_exactly_that_id 1%Z (withTodos sampleTodos All)
                initialState (RString "offline") (or_introl eq_refl)) as H.
  split.
  - exact (proj1 (proj2 (proj2 H))).
  - exact (proj1 (proj2 (proj2 (proj2 (proj2 (proj2 H)))))).
Defined.

(** C10: for an id no todo carries, a delete whose call succeeds leaves
    [todos] exactly as it was and raises nothing: the message, the
    visibility flag and the pending timeouts are untouched, and the
    promise handed to the caller is fulfilled. *)
Theorem delete_absent_id_changes_nothing :
  forall (todoId : Z) (s : State),
    ~ In todoId (map id (todosFromServer s)) ->
    let ok := run [Delete todoId;
                   Settle (List.length (inflight s)) (Deleted (Fulfilled tt))] s in
    todosFromServer ok = todosFromServer s /\
    errorMessage ok = errorMessage s /\
    isNotificationHidden ok = isNotificationHidden s /\
    timers ok = timers s /\
    result (settleDelete todoId (Fulfilled tt)) s = Fulfilled tt /\
    todosFromServer (exec (settleDelete todoId (Fulfilled tt)) s)
      = todosFromServer s.
Proof.
  intros todoId s Hin ok. subst ok.
  rewrite delete_then_settle.
  repeat split; simpl; now apply filter_absent_id.
Qed.

Lemma delete_absent_id_changes_nothing_witness :
  ~ In 9%Z (map id sampleTodos) /\
  todosFromServer
    (run [Delete 9; Settle 0 (Deleted (Fulfilled tt))] (withTodos sampleTodos All))
  = sampleTodos.
Proof.
  assert (H : ~ In 9%Z (map id sampleTodos))
    by (simpl; intros [E|[E|[]]]; discriminate).
  split; [exact H|].
  exact (proj1 (@delete_absent_id_changes_nothing 9%Z
                  (withTodos sampleTodos All) H)).
Defined.

(** ** Clearing the completed todos *)

Lemma callEach_requests (ids : list Z) (s : State) :
  requests (exec (callEach ids) s) = requests s ++ map DeleteTodo ids.
Proof.
  revert s; induction ids as [|i ids IH]; intros s.
  - simpl. now rewrite app_nil_r.
  - change (exec (callEach (i :: ids)) s)
      with (exec (callEach ids) (exec (call (DeleteTodo i) (PClear i)) s)).
    rewrite IH. simpl. now rewrite <- app_assoc.
Qed.

Lemma callEach_inflight (ids : list Z) (s : State) :
  inflight (exec (callEach ids) s) = inflight s ++ map PClear ids.
Proof.
  revert s; induction ids as [|i ids IH]; intros s.
  - simpl. now rewrite app_nil_r.
  - change (exec (callEach (i :: ids)) s)
      with (exec (callEach ids) (exec (call (DeleteTodo i) (PClear i)) s)).
    rewrite IH. simpl. now rewrite <- app_assoc.
Qed.

Lemma callEach_deletingTodoIds (ids : list Z) (s : State) :
  deletingTodoIds (exec (callEach ids) s) = deletingTodoIds s.
Proof.
  revert s; induction ids as [|i ids IH]; intros s; [reflexivity|].
  change (exec (callEach (i :: ids)) s)
    with (exec (callEach ids) (exec (call (DeleteTodo i) (PClear i)) s)).
  now rewrite IH.
Qed.

Lemma callEach_todosFromServer (ids : list Z) (s : State) :
  todosFromServer (exec (callEach ids) s) = todosFromServer s.
Proof.
  revert s; induction ids as [|i ids IH]; intros s; [reflexivity|].
  change (exec (callEach (i :: ids)) s)
    with (exec (callEach ids) (exec (call (DeleteTodo i) (PClear i)) s)).
  now rewrite IH.
Qed.

Lemma handleClearCompletedTodos_exec (s : State) :
  exec handleClearCompletedTodos s =
  exec (callEach (map id (List.filter (fun todo => completed todo)
                            (todosFromServer s))))
    (exec (setDeletingTodoIds
             (map id (List.filter (fun todo => completed todo)
                        (todosFromServer s)))) s).
Proof.
  unfold handleClearCompletedTodos, exec, bind, get; simpl.
  now destruct (callEach _ _).
Qed.

Lemma fire_requests (due : list N) (s : State) :
  requests (exec (fire due) s) = requests s.
Proof.
  revert s; induction due as [|d due IH]; intros s; [reflexivity|].
  change (exec (fire (d :: due)) s)
    with (exec (fire due) (exec timeoutCallback s)).
  now rewrite IH.
Qed.

Lemma settlement_keeps_requests (e : Event) (s : State) :
  isSettlement e = true -> requests (step e s) = requests s.
Proof.
  destruct e as [| | | | | |n r|ms]; try discriminate; intros _.
  - unfold step, exec, settle.
    destruct (nth_error (inflight s) n) as [[| |i|i]|];
      destruct r as [p|p|p]; try reflexivity; now destruct p.
  - unfold step, elapse.
    change (requests (exec (fire (List.filter (fun d => (d <=? now s + ms)%N) (timers s)))
      (mkState (todosFromServer s) (filter s) (errorMessage s)
               (isNotificationHidden s) (tempTodo s) (deletingTodoIds s)
               (requests s) (inflight s) (now s + ms)%N
               (List.filter (fun d => negb (d <=? now s + ms)%N) (timers s))
               (inputRef s) (focusCalls s))) = requests s).
    now rewrite fire_requests.
Qed.

Lemma settlements_keep_requests (evs : list Event) (s : State) :
  forallb isSettlement evs = true -> requests (run evs s) = requests s.
Proof.
  revert s; induction evs as [|e evs IH]; intros s H; [reflexivity|].
  simpl in H. apply andb_prop in H as [He Hevs].
  change (run (e :: evs) s) with (run evs (step e s)).
  rewrite IH by assumption. now apply settlement_keeps_requests.
Qed.

(** C9: [clearCompleted] makes one delete call for each todo whose
    [completed] flag is set when it is invoked, in the order of [todos],
    and no other call; the ids are fixed there and then: whatever calls
    settle and however much time passes afterwards, the calls made stay
    these. *)
Theorem clearCompleted_one_call_per_completed :
  forall (s : State) (evs : list Event),
    forallb isSettlement evs = true ->
    let completedTodos :=
      List.filter (fun todo => completed todo) (todosFromServer s) in
    let s1 := step ClearCompleted s in
    requests s1 =
      requests s ++ map (fun todo => DeleteTodo (id todo)) completedTodos /\
    inflight s1 =
      inflight s ++ map (fun todo => PClear (id todo)) completedTodos /\
    deletingTodoIds s1 = map id completedTodos /\
    todosFromServer s1 = todosFromServer s /\
    requests (run evs s1) = requests s1.
Proof.
  intros s evs H completedTodos s1. subst s1 completedTodos.
  rewrite (settlements_keep_requests evs _ H).
  unfold step. rewrite handleClearCompletedTodos_exec.
  rewrite callEach_requests, callEach_inflight, callEach_deletingTodoIds,
    callEach_todosFromServer, !map_map.
  repeat split.
Qed.

Lemma clearCompleted_one_call_per_completed_witness :
  let evs := [Settle 1 (Deleted (Fulfilled tt));
              Elapse 10;
              Settle 0 (Deleted (Rejected (RString "offline")))] in
  forallb isSettlement evs = true /\
  requests (step ClearCompleted (withTodos doneTodos All))
    = [DeleteTodo 1; DeleteTodo 2] /\
  requests (run evs (step ClearCompleted (withTodos doneTodos All)))
    = requests (step ClearCompleted (withTodos doneTodos All)).
Proof.
  split; [reflexivity|].
  pose proof (@clearCompleted_one_call_per_completed
                (withTodos doneTodos All)
                [Settle 1 (Deleted (Fulfilled tt));
                 Elapse 10;
                 Settle 0 (Deleted (Rejected (RString "offline")))]
                eq_refl) as H.
  split.
  - exact (proj1 H).
  - exact (proj2 (proj2 (proj2 (proj2 H)))).
Defined.

(** Every settlement of a delete call of the batch empties
    [deletingTodoIds], whatever is still in flight. *)
Lemma settleClear_empties_deletingTodoIds (i : Z) (p : Settled unit) (s : State) :
  deletingTodoIds (exec (settleClear i p) s) = [] /\
  inflight (exec (settleClear i p) s) = inflight s.
Proof. now destruct p. Qed.

(** C1, as the code has it: two completed todos, [clearCompleted], and
    the first delete call of the batch settles while the second is still
    in flight.  The claim keeps the second id in [deletingIds] until its
    own call settles; the code has emptied the list already. *)
Theorem clearCompleted_first_settlement_empties_deletingIds :
  let s1 := step ClearCompleted (withTodos doneTodos All) in
  let s2 := step (Settle 0 (Deleted (Fulfilled tt))) s1 in
  deletingTodoIds s1 = [1; 2]%Z /\
  inflight s1 = [PClear 1; PClear 2] /\
  inflight s2 = [PClear 2] /\
  todosFromServer s2 = [mkTodo 2 buy USER_ID true] /\
  deletingTodoIds s2 = [].
Proof. repeat split. Qed.

(** ** What the handlers hand back *)

(** The promise [add] returns when its call fails is rejected. *)
Lemma add_failure_reaches_caller :
  ~ (forall (p : Settled Todo) (s : State),
       exists u, result (settleAdd p) s = Fulfilled u).
Proof.
  intros H.
  destruct (H (Rejected (RString "offline")) initialState) as [u E].
  discriminate E.
Qed.

Lemma handleClearCompletedTodos_result (s : State) :
  result handleClearCompletedTodos s = Undefined.
Proof.
  unfold result, handleClearCompletedTodos, bind, get; simpl.
  now destruct (callEach _ _).
Qed.

(** C2, amended: a failed call is caught, turned into a notification and
    raised again.  The promise [add] and [delete] return is fulfilled
    when the call succeeds and rejected, with a new [Error] made from the
    cause, when it fails; [add] with a title that trims to nothing
    returns a promise that is rejected already; [clearCompleted] returns
    nothing, and each chain of its batch is rejected on failure in the
    same way. *)
Theorem failures_notify_and_rethrow :
  forall (s : State) (title : JSString) (newTodo : Todo) (i : Z) (r : Reason),
    result (handleAddTodo title) s =
      (if (List.length (trim title) =? 0)%nat
       then Already (Rejected (RString "Title is empty"))
       else Awaiting) /\
    result (settleAdd (Fulfilled newTodo)) s = Fulfilled tt /\
    result (settleAdd (Rejected r)) s = Rejected (RError (toStr r)) /\
    errorMessage (exec (settleAdd (Rejected r)) s)
      = "Unable to add a todo"%string /\
    isNotificationHidden (exec (settleAdd (Rejected r)) s) = false /\
    result (handleDeleteTodo i) s = Awaiting /\
    result (settleDelete i (Fulfilled tt)) s = Fulfilled tt /\
    result (settleDelete i (Rejected r)) s = Rejected (RError (toStr r)) /\
    errorMessage (exec (settleDelete i (Rejected r)) s)
      = "Unable to delete a todo"%string /\
    isNotificationHidden (exec (settleDelete i (Rejected r)) s) = false /\
    result handleClearCompletedTodos s = Undefined /\
    result (settleClear i (Fulfilled tt)) s = Fulfilled tt /\
    result (settleClear i (Rejected r)) s = Rejected (RError (toStr r)) /\
    errorMessage (exec (settleClear i (Rejected r)) s)
      = "Unable to delete a todo"%string.
Proof.
  intros s title newTodo i r.
  split.
  - unfold result, handleAddTodo, bind; simpl.
    now destruct (trim title).
  - repeat split. apply handleClearCompletedTodos_result.
Qed.

(** ** The list of ids being deleted *)

(** An id in [deletingIds] does not survive another [delete]. *)
Lemma delete_drops_other_deleting_ids :
  ~ (forall (s : State) (todoId x : Z),
       In x (deletingTodoIds s) ->
       In x (deletingTodoIds (exec (handleDeleteTodo todoId) s))).
Proof.
  intros H.
  specialize (H (step (Delete 1) initialState) 2%Z 1%Z (or_introl eq_refl)).
  simpl in H. destruct H as [E|[]]. discriminate E.
Qed.

(** C4, amended: [delete(id)] at once makes [deletingIds] the list
    holding [id] and nothing else; of the ids that were in it, only
    [id] itself is still there. *)
Theorem delete_sets_deletingIds_to_id :
  forall (s : State) (todoId : Z),
    let s' := exec (handleDeleteTodo todoId) s in
    deletingTodoIds s' = [todoId] /\
    (forall x, In x (deletingTodoIds s') <-> x = todoId) /\
    requests s' = requests s ++ [DeleteTodo todoId] /\
    todosFromServer s' = todosFromServer s.
Proof.
  intros s todoId s'. subst s'. simpl.
  repeat split; intros; subst; auto.
  destruct H as [E|[]]; now subst.
Qed.

(** ** The notification and its timeouts *)

Lemma fire_notification (due : list N) (s : State) :
  isNotificationHidden (exec (fire due) s) =
    match due with [] => isNotificationHidden s | _ :: _ => true end /\
  errorMessage (exec (fire due) s) =
    match due with [] => errorMessage s | _ :: _ => ""%string end.
Proof.
  revert s; induction due as [|d due IH]; intros s; [now split|].
  change (exec (fire (d :: due)) s)
    with (exec (fire due) (exec timeoutCallback s)).
  destruct (IH (exec timeoutCallback s)) as [Hh Hm].
  rewrite Hh, Hm. now destruct due.
Qed.

Lemma filter_nil_forallb (A : Type) (p : A -> bool) (l : list A) :
  List.filter p l = [] <-> forallb (fun x => negb (p x)) l = true.
Proof.
  induction l as [|x l IH]; simpl; [tauto|].
  destruct (p x); simpl; [split; discriminate | exact IH].
Qed.

(** After [ms] milliseconds the notification is hidden as soon as one
    pending timeout has come due, and is as it was otherwise. *)
Lemma elapse_notification (ms : N) (s : State) :
  let due := List.filter (fun d => (d <=? now s + ms)%N) (timers s) in
  isNotificationHidden (exec (elapse ms) s) =
    match due with [] => isNotificationHidden s | _ :: _ => true end /\
  errorMessage (exec (elapse ms) s) =
    match due with [] => errorMessage s | _ :: _ => ""%string end.
Proof.
  intros due. unfold elapse, exec. fold due.
  exact (fire_notification due _).
Qed.

(** A second error raised two seconds after a first one is hidden one
    second later, by the first error's timeout. *)
Lemma second_error_hidden_by_first_timeout :
  ~ (forall (s : State) (m : string) (dt : N),
       (dt < 3000)%N ->
       isNotificationHidden
         (exec (elapse dt) (exec (showErrorMessage m) s)) = false).
Proof.
  intros H.
  specialize (H (run [Add blank; Elapse 2000] initialState)
                "Unable to add a todo"%string 1000%N eq_refl).
  discriminate H.
Qed.

(** C3, amended: every raised error shows the notification with its
    message at once and schedules a hide of its own three seconds later;
    no timeout is ever cancelled.  So [dt] milliseconds after an error is
    raised the notification is still showing exactly when [dt] is under
    3000 and no timeout of an earlier error has come due in between: the
    window is three seconds when nothing else is pending, and ends with
    the earlier error's timeout, which also blanks the message, when one
    is. *)
Theorem notification_hidden_by_earliest_timeout :
  forall (s : State) (m : string) (dt : N),
    let shown := exec (showErrorMessage m) s in
    let later := exec (elapse dt) shown in
    errorMessage shown = m /\
    isNotificationHidden shown = false /\
    timers shown = timers s ++ [(now s + 3000)%N] /\
    (isNotificationHidden later = false <->
     (dt < 3000)%N /\ Forall (fun d => (now s + dt < d)%N) (timers s)) /\
    errorMessage later = (if isNotificationHidden later then "" else m)%string.
Proof.
  intros s m dt shown later.
  split; [reflexivity|]. split; [reflexivity|]. split; [reflexivity|].
  destruct (elapse_notification dt shown) as [Hh Hm].
  fold later in Hh, Hm. rewrite Hh, Hm.
  change (timers shown) with (timers s ++ [(now s + 3000)%N]).
  change (now shown) with (now s).
  change (isNotificationHidden shown) with false.
  change (errorMessage shown) with m.
  destruct (List.filter (fun d => (d <=? now s + dt)%N)
              (timers s ++ [(now s + 3000)%N])) as [|d due] eqn:E.
  - split; [|reflexivity].
    apply filter_nil_forallb in E.
    rewrite forallb_app in E. apply andb_prop in E as [E1 E2].
    simpl in E2. rewrite andb_true_r in E2.
    apply negb_true_iff, N.leb_gt in E2.
    split; [intros _|reflexivity].
    split; [lia|].
    apply Forall_forall. intros x Hx.
    rewrite forallb_forall in E1. specialize (E1 x Hx).
    now apply negb_true_iff, N.leb_gt in E1.
  - split; [|reflexivity].
    split; [discriminate|].
    intros [Hdt Hall]. exfalso.
    assert (Hnil : List.filter (fun d => (d <=? now s + dt)%N)
                     (timers s ++ [(now s + 3000)%N]) = []).
    { apply filter_nil_forallb. rewrite forallb_app. apply andb_true_intro.
      split.
      - apply forallb_forall. intros x Hx.
        rewrite Forall_forall in Hall.
        apply negb_true_iff, N.leb_gt. now apply Hall.
      - simpl. rewrite andb_true_r.
        apply negb_true_iff, N.leb_gt. lia. }
    rewrite Hnil in E. discriminate E.
Qed.

(** * Further properties of the component *)

(** ** The derived views *)

Lemma filter_split_length (A : Type) (p : A -> bool) (l : list A) :
  (List.length (List.filter p l)
   + List.length (List.filter (fun x => negb (p x)) l))%nat = List.length l.
Proof.
  induction l as [|x l IH]; simpl; [reflexivity|].
  destruct (p x); simpl; lia.
Qed.

Lemma filter_filter (A : Type) (p q : A -> bool) (l : list A) :
  List.filter p (List.filter q l) = List.filter (fun x => q x && p x) l.
Proof.
  induction l as [|x l IH]; simpl; [reflexivity|].
  destruct (q x); simpl; [destruct (p x)|]; now rewrite IH.
Qed.

Lemma filter_none (A : Type) (p : A -> bool) (l : list A) :
  (forall x, p x = false) -> List.filter p l = [].
Proof.
  intros H; induction l as [|x l IH]; simpl; [reflexivity|].
  now rewrite H.
Qed.

(** The active and the completed todos split the list: the counter of
    the footer and the length of the [Completed] view add up to the
    number of todos, and the [Active] view has as many rows as the
    counter says. *)
Theorem views_split_todos :
  forall (s : State),
    (activeTodosCount s
     + List.length (filterTodos (todosFromServer s) Completed))%nat
      = List.length (todosFromServer s) /\
    List.length (filterTodos (todosFromServer s) Active) = activeTodosCount s /\
    (forall todo, In todo (todosFromServer s) <->
                  In todo (filterTodos (todosFromServer s) Active) \/
                  In todo (filterTodos (todosFromServer s) Completed)) /\
    (forall todo, ~ (In todo (filterTodos (todosFromServer s) Active) /\
                     In todo (filterTodos (todosFromServer s) Completed))).
Proof.
  intros s. unfold activeTodosCount. simpl.
  split; [|split; [reflexivity|split]].
  - rewrite Nat.add_comm.
    apply (filter_split_length Todo (fun todo => completed todo)).
  - intros todo. rewrite !filter_In.
    destruct (completed todo); simpl; intuition congruence.
  - intros todo. rewrite !filter_In.
    destruct (completed todo); simpl; intuition congruence.
Qed.

(** [allTodosCompleted] holds exactly when every todo is completed, so
    it holds of the empty list; it fails as soon as one todo is active. *)
Theorem allTodosCompleted_iff_every_completed :
  forall (s : State),
    (allTodosCompleted s = true <->
     forall todo, In todo (todosFromServer s) -> completed todo = true) /\
    allTodosCompleted s = forallb (fun todo => completed todo) (todosFromServer s) /\
    allTodosCompleted initialState = true.
Proof.
  intros s.
  assert (E : allTodosCompleted s
              = forallb (fun todo => completed todo) (todosFromServer s)).
  { unfold allTodosCompleted, activeTodosCount.
    induction (todosFromServer s) as [|t l IH]; simpl; [reflexivity|].
    destruct (completed t); simpl; [exact IH | reflexivity]. }
  split; [|split; [exact E | reflexivity]].
  rewrite E, forallb_forall. tauto.
Qed.

(** [hasCompletedTodos] holds exactly when some todo is completed, that
    is when the [Completed] view is not empty; and [clearCompleted] makes
    a service call exactly in that case. *)
Theorem hasCompletedTodos_iff_clear_calls :
  forall (s : State),
    (hasCompletedTodos s = true <->
     exists todo, In todo (todosFromServer s) /\ completed todo = true) /\
    (hasCompletedTodos s = false <->
     filterTodos (todosFromServer s) Completed = []) /\
    (hasCompletedTodos s = false <->
     requests (step ClearCompleted s) = requests s) /\
    (hasCompletedTodos s = false <->
     activeTodosCount s = List.length (todosFromServer s)).
Proof.
  intros s. unfold hasCompletedTodos.
  assert (E : existsb (fun todo => completed todo) (todosFromServer s) = false
              <-> List.filter (fun todo => completed todo) (todosFromServer s) = []).
  { induction (todosFromServer s) as [|t l IH]; simpl; [tauto|].
    destruct (completed t); simpl; [split; discriminate | exact IH]. }
  split; [|split; [|split]].
  - rewrite existsb_exists. tauto.
  - exact E.
  - rewrite E. unfold step.
    rewrite handleClearCompletedTodos_exec, callEach_requests. simpl.
    destruct (List.filter (fun todo => completed todo) (todosFromServer s))
      as [|t l]; simpl.
    + rewrite app_nil_r. tauto.
    + split; [discriminate|]. intros H. exfalso.
      apply (f_equal (@List.length Request)) in H.
      rewrite length_app in H. simpl in H. lia.
  - rewrite E. unfold activeTodosCount.
    pose proof (filter_split_length Todo (fun todo => completed todo)
                  (todosFromServer s)) as L.
    destruct (List.filter (fun todo => completed todo) (todosFromServer s))
      as [|t l]; simpl in *.
    + split; [intros _; lia | reflexivity].
    + split; [discriminate | intros H; lia].
Qed.

(** Filtering an already filtered list by the same filter changes
    nothing, and no todo passes both [Active] and [Completed]. *)
Theorem filterTodos_idempotent_and_disjoint :
  forall (todos : list Todo) (f : Filter),
    filterTodos (filterTodos todos f) f = filterTodos todos f /\
    filterTodos (filterTodos todos Active) Completed = [] /\
    filterTodos (filterTodos todos Completed) Active = [] /\
    filterTodos (filterTodos todos f) All = filterTodos todos f.
Proof.
  intros todos f.
  split; [|split; [|split; [|reflexivity]]].
  - destruct f; simpl; [reflexivity| |]; rewrite filter_filter;
      apply filter_ext_bool; intros t; now destruct (completed t).
  - simpl. rewrite filter_filter. apply filter_none.
    intros t; now destruct (completed t).
  - simpl. rewrite filter_filter. apply filter_none.
    intros t; now destruct (completed t).
Qed.

(** The views follow the list: a successful add raises the active
    counter by one exactly when the server's todo is not completed, and
    a successful delete leaves in every view the rows it had, less those
    carrying the deleted id. *)
Theorem views_after_add_and_delete :
  forall (s : State) (newTodo : Todo) (i : Z),
    let added := exec (settleAdd (Fulfilled newTodo)) s in
    let deleted := exec (settleDelete i (Fulfilled tt)) s in
    activeTodosCount added =
      (activeTodosCount s + if completed newTodo then 0 else 1)%nat /\
    hasCompletedTodos added = hasCompletedTodos s || completed newTodo /\
    visibleTodos added =
      visibleTodos s ++ filterTodos [newTodo] (filter s) /\
    visibleTodos deleted =
      List.filter (fun todo => negb (id todo =? i)%Z) (visibleTodos s) /\
    (activeTodosCount deleted <= activeTodosCount s)%nat.
Proof.
  intros s newTodo i added deleted. subst added deleted.
  unfold activeTodosCount, hasCompletedTodos, visibleTodos. simpl.
  split; [|split; [|split; [|split]]].
  - rewrite filter_app, length_app. simpl.
    now destruct (completed newTodo).
  - rewrite existsb_app. simpl. now rewrite orb_false_r.
  - destruct (filter s); simpl; [reflexivity| |]; apply filter_app.
  - destruct (filter s); simpl; [reflexivity| |]; rewrite !filter_filter;
      apply filter_ext_bool; intros t; apply andb_comm.
  - rewrite filter_filter.
    rewrite (filter_ext_bool Todo
               (fun x => negb (id x =? i)%Z && negb (completed x))
               (fun x => negb (completed x) && negb (id x =? i)%Z)
               (todosFromServer s) (fun x => andb_comm _ _)).
    rewrite <- filter_filter. apply filter_length_le.
Qed.

(** ** The initial load *)

Lemma settle_load (n : nat) (p : Settled (list Todo)) (s : State) :
  nth_error (inflight s) n = Some PLoad ->
  exec (settle n (Listed p)) s = exec (settleLoad p) (exec (dequeue n) s).
Proof.
  intros H. unfold exec, settle. rewrite H. unfold bind, dequeue.
  now destruct (settleLoad p _).
Qed.

Lemma mount_then_settle (p : Settled (list Todo)) (s : State) :
  run [Mount; Settle (List.length (inflight s)) (Listed p)] s =
  exec (settleLoad p)
    (exec (dequeue (List.length (inflight s))) (exec mount s)).
Proof.
  change (run [Mount; Settle (List.length (inflight s)) (Listed p)] s)
    with (exec (settle (List.length (inflight s)) (Listed p)) (exec mount s)).
  apply settle_load. simpl. apply nth_error_last.
Qed.

(** The load makes one [getTodos] call.  When it succeeds the fetched
    list replaces [todos] whole, whatever the list held by then; when it
    fails [todos] stays as it is and "Unable to load todos" is shown, and
    the failure stops there: the chain ends fulfilled, unlike those of
    add and delete. *)
Theorem load_replaces_or_notifies :
  forall (s s' : State) (todos : list Todo) (r : Reason),
    let loaded := run [Mount; Settle (List.length (inflight s))
                                (Listed (Fulfilled todos))] s in
    let failed := run [Mount; Settle (List.length (inflight s))
                                (Listed (Rejected r))] s in
    requests (step Mount s) = requests s ++ [GetTodos] /\
    todosFromServer loaded = todos /\
    errorMessage loaded = errorMessage s /\
    inflight loaded = inflight s /\
    todosFromServer failed = todosFromServer s /\
    errorMessage failed = "Unable to load todos"%string /\
    isNotificationHidden failed = false /\
    requests failed = requests s ++ [GetTodos] /\
    todosFromServer (exec (settleLoad (Fulfilled todos)) s') = todos /\
    result (settleLoad (Rejected r)) s' = Fulfilled tt.
Proof.
  intros s s' todos r loaded failed. subst loaded failed.
  rewrite !mount_then_settle.
  repeat split. simpl. apply removeNth_last.
Qed.

(** ** A batch of deletes settling *)

Lemma settleClear_fulfilled (i : Z) (s : State) :
  exec (settleClear i (Fulfilled tt)) s =
  mkState (List.filter (fun todo => negb (id todo =? i)%Z) (todosFromServer s))
          (filter s) (errorMessage s) (isNotificationHidden s) (tempTodo s) []
          (requests s) (inflight s) (now s) (timers s) (inputRef s)
          (if inputRef s then S (focusCalls s) else focusCalls s).
Proof. reflexivity. Qed.

Lemma settleClear_rejected (i : Z) (r : Reason) (s : State) :
  exec (settleClear i (Rejected r)) s =
  mkState (todosFromServer s) (filter s) "Unable to delete a todo" false
          (tempTodo s) [] (requests s) (inflight s) (now s)
          (timers s ++ [(now s + 3000)%N]) (inputRef s)
          (if inputRef s then S (focusCalls s) else focusCalls s).
Proof. reflexivity. Qed.

Lemma settleEach_cons (i : Z) (p : Settled unit)
      (rest : list (Z * Settled unit)) (s : State) :
  exec (settleEach ((i, p) :: rest)) s =
  exec (settleEach rest) (exec (settleClear i p) s).
Proof.
  unfold exec; simpl; unfold bind.
  now destruct (settleClear i p s).
Qed.

Lemma settleEach_fields :
  forall (outcomes : list (Z * Settled unit)) (s : State),
    let s' := exec (settleEach outcomes) s in
    todosFromServer s' =
      List.filter (fun todo => negb (memZ (id todo) (succeeded outcomes)))
                  (todosFromServer s) /\
    List.length (timers s') = (List.length (timers s) + failures outcomes)%nat /\
    errorMessage s' =
      (if (failures outcomes =? 0)%nat then errorMessage s
       else "Unable to delete a todo"%string) /\
    focusCalls s' =
      (focusCalls s + if inputRef s then List.length outcomes else 0)%nat /\
    deletingTodoIds s' =
      match outcomes with [] => deletingTodoIds s | _ :: _ => [] end /\
    requests s' = requests s.
Proof.
  induction outcomes as [|[i p] rest IH]; intros s s'; subst s'.
  - simpl. rewrite filter_all, !Nat.add_0_r.
    destruct (inputRef s); repeat split; unfold exec; simpl; lia.
  - rewrite settleEach_cons.
    destruct (IH (exec (settleClear i p) s)) as (Ht & Hl & Hm & Hf & Hd & Hr).
    rewrite Ht, Hl, Hm, Hf, Hr, Hd.
    destruct p as [[]|r].
    + rewrite settleClear_fulfilled.
      unfold succeeded, failures; simpl.
      repeat split.
      * rewrite filter_filter. apply filter_ext_bool. intros t.
        unfold memZ; simpl. now rewrite negb_orb.
      * destruct (inputRef s); lia.
      * now destruct rest.
    + rewrite settleClear_rejected.
      unfold succeeded, failures; simpl.
      repeat split.
      * rewrite length_app. simpl. lia.
      * now destruct (List.length
          (List.filter (fun o => negb (isFulfilled (snd o))) rest)).
      * destruct (inputRef s); lia.
      * now destruct rest.
Qed.

(** However the calls of a batch settle, one after the other, the todos
    left are those whose id is not among the ids deleted with success;
    every failure shows "Unable to delete a todo" and leaves a timeout of
    its own; the input is focused once per settled call while it is
    mounted; and the list of ids being deleted is empty from the first
    settlement on. *)
Theorem batch_settles_by_outcome :
  forall (outcomes : list (Z * Settled unit)) (s : State),
    let s' := exec (settleEach outcomes) s in
    todosFromServer s' =
      List.filter (fun todo => negb (memZ (id todo) (succeeded outcomes)))
                  (todosFromServer s) /\
    List.length (timers s') = (List.length (timers s) + failures outcomes)%nat /\
    errorMessage s' =
      (if (failures outcomes =? 0)%nat then errorMessage s
       else "Unable to delete a todo"%string) /\
    focusCalls s' =
      (focusCalls s + if inputRef s then List.length outcomes else 0)%nat /\
    deletingTodoIds s' =
      match outcomes with [] => deletingTodoIds s | _ :: _ => [] end /\
    requests s' = requests s.
Proof. exact settleEach_fields. Qed.

Lemma memZ_In (i : Z) (l : list Z) : memZ i l = true <-> In i l.
Proof.
  unfold memZ. rewrite existsb_exists. split.
  - intros [x [Hx E]]. apply Z.eqb_eq in E. now subst.
  - intros H. exists i. split; [exact H | apply Z.eqb_refl].
Qed.

Lemma succeeded_In (i : Z) (outcomes : list (Z * Settled unit)) :
  In i (succeeded outcomes) <-> In (i, Fulfilled tt) outcomes.
Proof.
  unfold succeeded. rewrite in_map_iff. split.
  - intros [[j p] [E H]]. simpl in E. subst j.
    apply filter_In in H as [H F].
    destruct p as [[]|r]; [exact H | discriminate F].
  - intros H. exists (i, Fulfilled tt). split; [reflexivity|].
    apply filter_In. now split.
Qed.

Lemma succeeded_all (order : list Z) :
  succeeded (map (fun i => (i, Fulfilled tt)) order) = order.
Proof.
  unfold succeeded.
  induction order as [|i order IH]; simpl; [reflexivity | now rewrite IH].
Qed.

Lemma same_id_same_todo (todos : list Todo) (t t' : Todo) :
  NoDup (map id todos) -> In t todos -> In t' todos -> id t = id t' -> t = t'.
Proof.
  induction todos as [|x l IH]; simpl; intros ND Ht Ht' E; [contradiction|].
  inversion ND as [|y l' Hx ND']; subst.
  destruct Ht as [Ht|Ht], Ht' as [Ht'|Ht'].
  - congruence.
  - subst x. exfalso. apply Hx. rewrite E. now apply in_map.
  - subst x. exfalso. apply Hx. rewrite <- E. now apply in_map.
  - now apply IH.
Qed.

(** The order in which the calls of a batch settle does not matter for
    the list: two orders of the same outcomes leave the same todos. *)
Theorem batch_order_irrelevant :
  forall (outcomes outcomes' : list (Z * Settled unit)) (s : State),
    Permutation outcomes outcomes' ->
    todosFromServer (exec (settleEach outcomes) s) =
    todosFromServer (exec (settleEach outcomes') s).
Proof.
  intros outcomes outcomes' s P.
  rewrite (proj1 (settleEach_fields outcomes s)).
  rewrite (proj1 (settleEach_fields outcomes' s)).
  apply filter_ext_bool. intros t. f_equal.
  apply eq_true_iff_eq. rewrite !memZ_In, !succeeded_In.
  split; apply Permutation_in; [exact P | now apply Permutation_sym].
Qed.

Lemma batch_order_irrelevant_witness :
  let a := [(1%Z, Fulfilled tt); (2%Z, Rejected (RString "offline"))] in
  let b := [(2%Z, Rejected (RString "offline")); (1%Z, Fulfilled tt)] in
  Permutation a b /\
  todosFromServer (exec (settleEach a) (withTodos doneTodos All)) =
  todosFromServer (exec (settleEach b) (withTodos doneTodos All)).
Proof.
  assert (P : Permutation
                [(1%Z, Fulfilled tt); (2%Z, Rejected (RString "offline"))]
                [(2%Z, Rejected (RString "offline")); (1%Z, Fulfilled tt)])
    by apply perm_swap.
  split; [exact P|].
  exact (@batch_order_irrelevant _ _ (withTodos doneTodos All) P).
Defined.

Lemma clear_then_all_succeed_todos (s : State) (order : list Z) :
  todosFromServer
    (exec (settleEach (map (fun i => (i, Fulfilled tt)) order))
       (step ClearCompleted s)) =
  List.filter (fun todo => negb (memZ (id todo) order)) (todosFromServer s).
Proof.
  rewrite (proj1 (settleEach_fields _ _)), succeeded_all.
  unfold step. now rewrite handleClearCompletedTodos_exec, callEach_todosFromServer.
Qed.

(** [clearCompleted] followed by the success of all its calls, in any
    order: no completed todo is left, what is left was there before and
    in that order, and nothing is marked as being deleted. *)
Theorem clearCompleted_success_leaves_no_completed :
  forall (s : State) (order : list Z),
    Permutation order
      (map id (List.filter (fun todo => completed todo) (todosFromServer s))) ->
    let s' := exec (settleEach (map (fun i => (i, Fulfilled tt)) order))
                   (step ClearCompleted s) in
    hasCompletedTodos s' = false /\
    filterTodos (todosFromServer s') Completed = [] /\
    Subseq (todosFromServer s') (todosFromServer s) /\
    deletingTodoIds s' = [] /\
    (activeTodosCount s' <= activeTodosCount s)%nat.
Proof.
  intros s order P s'.
  assert (Ht := clear_then_all_succeed_todos s order). fold s' in Ht.
  assert (Hnone : List.filter (fun todo => completed todo) (todosFromServer s') = []).
  { rewrite Ht, filter_filter. apply filter_nil_forallb, forallb_forall.
    intros t Hin. destruct (completed t) eqn:C; [|now rewrite andb_false_r].
    assert (M : memZ (id t) order = true).
    { apply memZ_In. apply Permutation_in with (1 := Permutation_sym P).
      apply in_map, filter_In. now split. }
    now rewrite M. }
  split; [|split; [exact Hnone|split; [|split]]].
  - unfold hasCompletedTodos.
    destruct (existsb (fun todo => completed todo) (todosFromServer s')) eqn:E;
      [|reflexivity].
    apply existsb_exists in E as [t [Hin C]].
    assert (Hf : In t (List.filter (fun todo => completed todo) (todosFromServer s')))
      by (apply filter_In; now split).
    rewrite Hnone in Hf. contradiction.
  - rewrite Ht. apply Subseq_filter.
  - subst s'. rewrite (proj1 (proj2 (proj2 (proj2 (proj2 (settleEach_fields _ _)))))).
    destruct order; simpl; [|reflexivity].
    apply Permutation_nil in P.
    unfold step. rewrite handleClearCompletedTodos_exec, callEach_deletingTodoIds.
    simpl. now rewrite <- P.
  - unfold activeTodosCount. rewrite Ht, filter_filter.
    rewrite (filter_ext_bool Todo
               (fun x => negb (memZ (id x) order) && negb (completed x))
               (fun x => negb (completed x) && negb (memZ (id x) order))
               (todosFromServer s) (fun x => andb_comm _ _)).
    rewrite <- filter_filter. apply filter_length_le.
Qed.

Lemma clearCompleted_success_leaves_no_completed_witness :
  Permutation [2%Z]
    (map id (List.filter (fun todo => completed todo) sampleTodos)) /\
  hasCompletedTodos
    (exec (settleEach [(2%Z, Fulfilled tt)])
       (step ClearCompleted (withTodos sampleTodos All))) = false.
Proof.
  assert (P : Permutation [2%Z]
                (map id (List.filter (fun todo => completed todo) sampleTodos)))
    by apply Permutation_refl.
  split; [exact P|].
  exact (proj1 (@clearCompleted_success_leaves_no_completed
                  (withTodos sampleTodos All) [2%Z] P)).
Defined.

(** With distinct ids in [todos], [clearCompleted] followed by the
    success of all its calls, in any order, leaves exactly the active
    todos. *)
Theorem clearCompleted_success_leaves_active :
  forall (s : State) (order : list Z),
    NoDup (map id (todosFromServer s)) ->
    Permutation order
      (map id (List.filter (fun todo => completed todo) (todosFromServer s))) ->
    todosFromServer
      (exec (settleEach (map (fun i => (i, Fulfilled tt)) order))
         (step ClearCompleted s))
    = filterTodos (todosFromServer s) Active.
Proof.
  intros s order ND P.
  rewrite clear_then_all_succeed_todos. simpl.
  apply filter_ext_in. intros t Hin. f_equal.
  apply eq_true_iff_eq. rewrite memZ_In. split.
  - intros H. apply Permutation_in with (1 := P) in H.
    apply in_map_iff in H as [t' [E H']].
    apply filter_In in H' as [Hin' C].
    now rewrite (same_id_same_todo (todosFromServer s) t t' ND Hin Hin' (eq_sym E)).
  - intros C. apply Permutation_in with (1 := Permutation_sym P).
    apply in_map, filter_In. now split.
Qed.

Lemma clearCompleted_success_leaves_active_witness :
  NoDup (map id sampleTodos) /\
  Permutation [2%Z]
    (map id (List.filter (fun todo => completed todo) sampleTodos)) /\
  todosFromServer
    (exec (settleEach [(2%Z, Fulfilled tt)])
       (step ClearCompleted (withTodos sampleTodos All)))
  = [mkTodo 1 buy USER_ID false].
Proof.
  assert (ND : NoDup (map id sampleTodos)).
  { simpl. constructor.
    - intros [E|[]]. discriminate E.
    - constructor; [intros [] | constructor]. }
  assert (P : Permutation [2%Z]
                (map id (List.filter (fun todo => completed todo) sampleTodos)))
    by apply Permutation_refl.
  split; [exact ND|]. split; [exact P|].
  exact (@clearCompleted_success_leaves_active
           (withTodos sampleTodos All) [2%Z] ND P).
Defined.

(** ** Invariants of the reachable states *)

Lemma run_snoc (evs : list Event) (e : Event) (s : State) :
  run (evs ++ [e]) s = step e (run evs s).
Proof. unfold run. now rewrite fold_left_app. Qed.

(** An invariant of the steps that holds at the start holds throughout. *)
Lemma run_invariant (P : State -> Prop) (ok : Event -> bool) :
  (forall e s, ok e = true -> P s -> P (step e s)) ->
  forall evs s, forallb ok evs = true -> P s -> P (run evs s).
Proof.
  intros Hstep evs. induction evs as [|e evs IH] using rev_ind; intros s Hok Hs.
  - exact Hs.
  - rewrite forallb_app in Hok. apply andb_prop in Hok as [Hevs He].
    simpl in He. rewrite andb_true_r in He.
    rewrite run_snoc. apply Hstep; [exact He | now apply IH].
Qed.

Lemma forallb_true (A : Type) (l : list A) : forallb (fun _ => true) l = true.
Proof. induction l; simpl; auto. Qed.

Lemma callEach_exec (ids : list Z) (s : State) :
  exec (callEach ids) s =
  mkState (todosFromServer s) (filter s) (errorMessage s)
          (isNotificationHidden s) (tempTodo s) (deletingTodoIds s)
          (requests s ++ map DeleteTodo ids) (inflight s ++ map PClear ids)
          (now s) (timers s) (inputRef s) (focusCalls s).
Proof.
  revert s; induction ids as [|i ids IH]; intros s.
  - destruct s. simpl. now rewrite !app_nil_r.
  - change (exec (callEach (i :: ids)) s)
      with (exec (callEach ids) (exec (call (DeleteTodo i) (PClear i)) s)).
    rewrite IH. simpl. now rewrite <- !app_assoc.
Qed.

Lemma fire_exec (due : list N) (s : State) :
  exec (fire due) s =
  match due with [] => s | _ :: _ => exec timeoutCallback s end.
Proof.
  revert s; induction due as [|d due IH]; intros s; [reflexivity|].
  change (exec (fire (d :: due)) s)
    with (exec (fire due) (exec timeoutCallback s)).
  rewrite IH. now destruct due.
Qed.

Lemma elapse_exec (ms : N) (s : State) :
  exec (elapse ms) s =
  exec (fire (List.filter (fun d => (d <=? now s + ms)%N) (timers s)))
    (mkState (todosFromServer s) (filter s) (errorMessage s)
             (isNotificationHidden s) (tempTodo s) (deletingTodoIds s)
             (requests s) (inflight s) (now s + ms)%N
             (List.filter (fun d => negb (d <=? now s + ms)%N) (timers s))
             (inputRef s) (focusCalls s)).
Proof. reflexivity. Qed.

Lemma filter_nil_keeps_rest (A : Type) (p : A -> bool) (l : list A) :
  List.filter p l = [] -> List.filter (fun x => negb (p x)) l = l.
Proof.
  induction l as [|x l IH]; simpl; [reflexivity|].
  destruct (p x); simpl; [discriminate|].
  intros H. now rewrite IH.
Qed.

Lemma removeNth_In (A : Type) (x : A) (l : list A) (n : nat) :
  In x l -> nth_error l n <> Some x -> In x (removeNth n l).
Proof.
  revert n; induction l as [|y l IH]; intros n Hin Hn; [contradiction|].
  destruct n as [|n]; simpl in *.
  - destruct Hin as [E|Hin]; [congruence | exact Hin].
  - destruct Hin as [E|Hin]; [now left | right; now apply IH].
Qed.

Ltac settle_cases s n r :=
  unfold step, exec, settle;
  let E := fresh "E" in
  destruct (nth_error (inflight s) n) as [[| |?i|?i]|] eqn:E;
  destruct r as [[?l|?r]|[?t|?r]|[[]|?r]]; simpl.

Ltac add_cases title :=
  unfold step, exec, handleAddTodo, bind; simpl;
  destruct (trim title); simpl.

(** *** The notification *)

Lemma timersWithin_step (e : Event) (s : State) :
  timersWithin s -> timersWithin (step e s).
Proof.
  unfold timersWithin. intros H.
  assert (Hnew : Forall (fun d => (d <= now s + 3000)%N)
                   (timers s ++ [(now s + 3000)%N])).
  { apply Forall_app. split; [exact H | constructor; [lia | constructor]]. }
  destruct e as [|title|i| |f|b|n r|ms]; try exact H.
  - add_cases title; assumption.
  - unfold step. rewrite handleClearCompletedTodos_exec, callEach_exec. exact H.
  - settle_cases s n r; assumption.
  - unfold step. rewrite elapse_exec, fire_exec.
    assert (Hrest : Forall (fun d => (d <= now s + ms + 3000)%N)
              (List.filter (fun d => negb (d <=? now s + ms)%N) (timers s))).
    { apply Forall_forall. intros d Hd. apply filter_In in Hd as [Hd _].
      rewrite Forall_forall in H. specialize (H d Hd). lia. }
    destruct (List.filter (fun d => (d <=? now s + ms)%N) (timers s));
      exact Hrest.
Qed.

Lemma messageHasTimer_step (e : Event) (s : State) :
  messageHasTimer s -> messageHasTimer (step e s).
Proof.
  unfold messageHasTimer. intros H.
  assert (Hnew : timers s ++ [(now s + 3000)%N] <> [])
    by (intros E; now apply app_eq_nil in E as [_ E]).
  destruct e as [|title|i| |f|b|n r|ms]; try exact H.
  - add_cases title; [intros _; exact Hnew | intros C; now contradiction C].
  - unfold step. rewrite handleClearCompletedTodos_exec, callEach_exec. exact H.
  - settle_cases s n r; try assumption; intros _; exact Hnew.
  - unfold step. rewrite elapse_exec, fire_exec.
    destruct (List.filter (fun d => (d <=? now s + ms)%N) (timers s)) eqn:E.
    + simpl. now rewrite (filter_nil_keeps_rest _ _ _ E).
    + simpl. intros C. now contradiction C.
Qed.

Lemma visibleHasTimer_step (e : Event) (s : State) :
  negb (reopensNotification e) = true ->
  visibleHasTimer s -> visibleHasTimer (step e s).
Proof.
  unfold visibleHasTimer. intros Hok H.
  assert (Hnew : timers s ++ [(now s + 3000)%N] <> [])
    by (intros E; now apply app_eq_nil in E as [_ E]).
  destruct e as [|title|i| |f|b|n r|ms]; try exact H.
  - add_cases title; [intros _; exact Hnew | exact H].
  - unfold step. rewrite handleClearCompletedTodos_exec, callEach_exec. exact H.
  - destruct b; [simpl; discriminate | discriminate Hok].
  - settle_cases s n r; try assumption; intros _; exact Hnew.
  - unfold step. rewrite elapse_exec, fire_exec.
    destruct (List.filter (fun d => (d <=? now s + ms)%N) (timers s)) eqn:E.
    + simpl. now rewrite (filter_nil_keeps_rest _ _ _ E).
    + simpl. discriminate.
Qed.

Lemma all_due_after_3s (s : State) (ms : N) :
  timersWithin s -> (3000 <= ms)%N ->
  List.filter (fun d => (d <=? now s + ms)%N) (timers s) = timers s /\
  List.filter (fun d => negb (d <=? now s + ms)%N) (timers s) = [].
Proof.
  unfold timersWithin. intros H Hms.
  induction H as [|d l Hd Hl IH]; simpl; [now split|].
  assert (E : (d <=? now s + ms)%N = true) by (apply N.leb_le; lia).
  rewrite E. simpl. destruct IH as [IH1 IH2]. now rewrite IH1, IH2.
Qed.

(** In every state reached from the start, three seconds without a new
    event are enough for the message to be blank and for no timeout to
    be left pending: no error text outlives its three seconds. *)
Theorem message_blank_after_3s :
  forall (evs : list Event) (ms : N),
    (3000 <= ms)%N ->
    let s := step (Elapse ms) (run evs initialState) in
    errorMessage s = ""%string /\ timers s = [].
Proof.
  intros evs ms Hms s. subst s.
  set (s0 := run evs initialState).
  assert (HW : timersWithin s0).
  { apply (run_invariant timersWithin (fun _ => true)).
    - intros e s _. apply timersWithin_step.
    - apply forallb_true.
    - constructor. }
  assert (HM : messageHasTimer s0).
  { apply (run_invariant messageHasTimer (fun _ => true)).
    - intros e s _. apply messageHasTimer_step.
    - apply forallb_true.
    - intros C. now contradiction C. }
  destruct (all_due_after_3s s0 ms HW Hms) as [Hdue Hrest].
  unfold step. rewrite elapse_exec, fire_exec, Hdue, Hrest.
  destruct (timers s0) as [|d l] eqn:T; simpl; [|now split].
  split; [|reflexivity].
  destruct (string_dec (errorMessage s0) "") as [E|E]; [exact E|].
  exfalso. now apply (HM E).
Qed.

Lemma message_blank_after_3s_witness :
  (3000 <= 3000)%N /\
  errorMessage
    (step (Elapse 3000)
       (run [Add blank; Elapse 2000; Add blank] initialState)) = ""%string.
Proof.
  assert (H : (3000 <= 3000)%N) by lia.
  split; [exact H|].
  exact (proj1 (@message_blank_after_3s
                  [Add blank; Elapse 2000; Add blank] 3000%N H)).
Defined.

(** As long as [onClose] is only used to hide the notification, three
    seconds without a new event are enough for it to be hidden. *)
Theorem notification_hidden_after_3s :
  forall (evs : list Event) (ms : N),
    forallb (fun e => negb (reopensNotification e)) evs = true ->
    (3000 <= ms)%N ->
    isNotificationHidden (step (Elapse ms) (run evs initialState)) = true.
Proof.
  intros evs ms Hev Hms.
  set (s0 := run evs initialState).
  assert (HW : timersWithin s0).
  { apply (run_invariant timersWithin (fun _ => true)).
    - intros e s _. apply timersWithin_step.
    - apply forallb_true.
    - constructor. }
  assert (HV : visibleHasTimer s0).
  { apply (run_invariant visibleHasTimer
             (fun e => negb (reopensNotification e))).
    - apply visibleHasTimer_step.
    - exact Hev.
    - discriminate. }
  destruct (all_due_after_3s s0 ms HW Hms) as [Hdue Hrest].
  unfold step. rewrite elapse_exec, fire_exec, Hdue, Hrest.
  destruct (timers s0) as [|d l] eqn:T; simpl; [|reflexivity].
  destruct (isNotificationHidden s0) eqn:Hh; [reflexivity|].
  exfalso. now apply (HV Hh).
Qed.

Lemma notification_hidden_after_3s_witness :
  let evs := [Add blank; Elapse 2000; CloseNotification true; Add blank] in
  forallb (fun e => negb (reopensNotification e)) evs = true /\
  (3000 <= 4000)%N /\
  isNotificationHidden (step (Elapse 4000) (run evs initialState)) = true.
Proof.
  assert (H : (3000 <= 4000)%N) by lia.
  split; [reflexivity|]. split; [exact H|].
  exact (@notification_hidden_after_3s
           [Add blank; Elapse 2000; CloseNotification true; Add blank]
           4000%N eq_refl H).
Defined.

(** *** The placeholder and the ids being deleted *)

Lemma placeholderAwaited_step (e : Event) (s : State) :
  placeholderAwaited s -> placeholderAwaited (step e s).
Proof.
  unfold placeholderAwaited. intros H.
  destruct e as [|title|i| |f|b|n r|ms]; try exact H.
  - simpl. intros T. apply in_or_app. left. now apply H.
  - add_cases title; [exact H | intros _; apply in_or_app; right; now left].
  - simpl. intros T. apply in_or_app. left. now apply H.
  - unfold step. rewrite handleClearCompletedTodos_exec, callEach_exec. simpl.
    intros T. apply in_or_app. left. now apply H.
  - settle_cases s n r; try exact H; try (intros C; now contradiction C);
      intros T; (apply removeNth_In; [now apply H | rewrite E; discriminate]).
  - unfold step. rewrite elapse_exec, fire_exec.
    destruct (List.filter (fun d => (d <=? now s + ms)%N) (timers s)); exact H.
Qed.

Lemma deletingAwaited_step (e : Event) (s : State) :
  deletingAwaited s -> deletingAwaited (step e s).
Proof.
  unfold deletingAwaited. intros H.
  assert (Hgrow : forall p i, In i (deletingTodoIds s) ->
            In (PDelete i) (inflight s ++ [p]) \/
            In (PClear i) (inflight s ++ [p])).
  { intros p i Hi. destruct (H i Hi); [left|right]; apply in_or_app; now left. }
  destruct e as [|title|i| |f|b|n r|ms]; try exact H.
  - simpl. apply Hgrow.
  - add_cases title; [exact H | apply Hgrow].
  - simpl. intros j [E|[]]. subst j. left. apply in_or_app. right. now left.
  - unfold step. rewrite handleClearCompletedTodos_exec, callEach_exec. simpl.
    intros j Hj. right. apply in_or_app. right. now apply in_map.
  - settle_cases s n r; try exact H; try (intros j []);
      intros j Hj; (destruct (H j Hj); [left|right]);
      (apply removeNth_In; [assumption | rewrite E; discriminate]).
  - unfold step. rewrite elapse_exec, fire_exec.
    destruct (List.filter (fun d => (d <=? now s + ms)%N) (timers s)); exact H.
Qed.

(** With two creates in flight, the first answer removes the placeholder
    while the second call is still pending. *)
Lemma placeholder_gone_while_creating :
  let s := run [Add buy; Add buy;
                Settle 0 (Created (Fulfilled (mkTodo 7 buy USER_ID false)))]
               initialState in
  tempTodo s = None /\ inflight s = [PAdd].
Proof. now split. Qed.

(** In every state reached from the start, a placeholder is on display
    only while a create call is in flight. *)
Theorem placeholder_only_while_creating :
  forall (evs : list Event),
    let s := run evs initialState in
    tempTodo s <> None -> In PAdd (inflight s).
Proof.
  intros evs.
  apply (run_invariant placeholderAwaited (fun _ => true)).
  - intros e s _. apply placeholderAwaited_step.
  - apply forallb_true.
  - intros C. now contradiction C.
Qed.

Lemma placeholder_only_while_creating_witness :
  tempTodo (run [Delete 1; Add buy] initialState) <> None /\
  In PAdd (inflight (run [Delete 1; Add buy] initialState)).
Proof.
  assert (H : tempTodo (run [Delete 1; Add buy] initialState) <> None)
    by discriminate.
  split; [exact H|].
  exact (@placeholder_only_while_creating [Delete 1; Add buy] H).
Defined.

(** In every state reached from the start, every id marked as being
    deleted belongs to a delete call that is still in flight. *)
Theorem deleting_ids_have_call_in_flight :
  forall (evs : list Event) (i : Z),
    let s := run evs initialState in
    In i (deletingTodoIds s) ->
    In (PDelete i) (inflight s) \/ In (PClear i) (inflight s).
Proof.
  intros evs.
  apply (run_invariant deletingAwaited (fun _ => true)).
  - intros e s _. apply deletingAwaited_step.
  - apply forallb_true.
  - intros i [].
Qed.

Lemma deleting_ids_have_call_in_flight_witness :
  In 2%Z (deletingTodoIds (run [Add buy; Delete 2] initialState)) /\
  (In (PDelete 2) (inflight (run [Add buy; Delete 2] initialState)) \/
   In (PClear 2) (inflight (run [Add buy; Delete 2] initialState))).
Proof.
  assert (H : In 2%Z (deletingTodoIds (run [Add buy; Delete 2] initialState)))
    by (now left).
  split; [exact H|].
  exact (@deleting_ids_have_call_in_flight [Add buy; Delete 2] 2%Z H).
Defined.

(** *** What changes the list *)

(** [todos] changes only when a call settles with success: no intent, no
    failed call and no timeout touches it. *)
Theorem todos_change_only_on_success :
  forall (e : Event) (s : State),
    isFulfilledSettle e = false ->
    todosFromServer (step e s) = todosFromServer s.
Proof.
  intros e s H.
  destruct e as [|title|i| |f|b|n r|ms]; try reflexivity.
  - add_cases title; reflexivity.
  - unfold step. now rewrite handleClearCompletedTodos_exec, callEach_exec.
  - revert H. settle_cases s n r; intros H; try reflexivity; discriminate H.
  - unfold step. rewrite elapse_exec, fire_exec.
    now destruct (List.filter (fun d => (d <=? now s + ms)%N) (timers s)).
Qed.

Lemma todos_change_only_on_success_witness :
  isFulfilledSettle (Settle 0 (Deleted (Rejected (RString "offline")))) = false /\
  todosFromServer
    (step (Settle 0 (Deleted (Rejected (RString "offline"))))
       (step (Delete 1) (withTodos sampleTodos All)))
  = sampleTodos.
Proof.
  split; [reflexivity|].
  exact (@todos_change_only_on_success
           (Settle 0 (Deleted (Rejected (RString "offline"))))
           (step (Delete 1) (withTodos sampleTodos All)) eq_refl).
Defined.

(** ** Which titles are accepted *)

Lemma trimStart_prefix (s : JSString) :
  exists pre, s = pre ++ trimStart s /\ forallb isWhiteSpace pre = true.
Proof.
  induction s as [|c s [pre [E F]]]; simpl.
  - now exists [].
  - destruct (isWhiteSpace c) eqn:W.
    + exists (c :: pre). simpl. rewrite W, F. split; [now f_equal | reflexivity].
    + now exists [].
Qed.

Lemma trimStart_head (s : JSString) :
  match trimStart s with [] => True | c :: _ => isWhiteSpace c = false end.
Proof.
  induction s as [|c s IH]; simpl; [exact I|].
  destruct (isWhiteSpace c) eqn:W; [exact IH | exact W].
Qed.

Lemma trimStart_nil (s : JSString) :
  trimStart s = [] <-> forallb isWhiteSpace s = true.
Proof.
  induction s as [|c s IH]; simpl; [tauto|].
  destruct (isWhiteSpace c); simpl; [exact IH | split; discriminate].
Qed.

Lemma forallb_rev (A : Type) (p : A -> bool) (l : list A) :
  forallb p (rev l) = forallb p l.
Proof.
  apply eq_true_iff_eq. rewrite !forallb_forall.
  split; intros H x Hx; apply H; [now apply -> in_rev | now apply in_rev].
Qed.

Lemma trimEnd_suffix (s : JSString) :
  exists post, s = trimEnd s ++ post /\ forallb isWhiteSpace post = true.
Proof.
  unfold trimEnd.
  destruct (trimStart_prefix (rev s)) as [pre [E F]].
  exists (rev pre). split.
  - rewrite <- rev_app_distr, <- E. symmetry. apply rev_involutive.
  - now rewrite forallb_rev.
Qed.

Lemma trim_parts (s : JSString) :
  exists pre post,
    s = pre ++ trim s ++ post /\
    forallb isWhiteSpace pre = true /\ forallb isWhiteSpace post = true.
Proof.
  destruct (trimStart_prefix s) as [pre [E F]].
  destruct (trimEnd_suffix (trimStart s)) as [post [E' F']].
  exists pre, post. unfold trim. now rewrite <- E', <- E.
Qed.

Lemma trim_last (s : JSString) :
  match rev (trim s) with [] => True | c :: _ => isWhiteSpace c = false end.
Proof.
  unfold trim, trimEnd. rewrite rev_involutive. apply trimStart_head.
Qed.

Lemma trim_first (s : JSString) :
  match trim s with [] => True | c :: _ => isWhiteSpace c = false end.
Proof.
  pose proof (trimStart_head s) as H.
  destruct (trimEnd_suffix (trimStart s)) as [post [E F]].
  fold (trim s) in E.
  destruct (trim s) as [|c t]; [exact I|].
  rewrite E in H. exact H.
Qed.

Lemma trim_nil (s : JSString) :
  trim s = [] <-> forallb isWhiteSpace s = true.
Proof.
  destruct (trimStart_prefix s) as [pre [E F]].
  assert (Hs : forallb isWhiteSpace s = forallb isWhiteSpace (trimStart s)).
  { rewrite E at 1. now rewrite forallb_app, F. }
  rewrite Hs. unfold trim, trimEnd.
  rewrite <- (forallb_rev _ isWhiteSpace (trimStart s)), <- trimStart_nil.
  split; intros H.
  - apply (f_equal (@rev N)) in H. now rewrite rev_involutive in H.
  - now rewrite H.
Qed.

(** [add] turns away exactly the titles made of white space only, the
    empty one among them.  Any other title goes to the server as the
    part of it between its leading and its trailing white space: that
    part starts and ends with a character that is no white space, and
    white space inside it is kept. *)
Theorem add_accepts_titles_with_text :
  forall (title : JSString) (s : State),
    result (handleAddTodo title) s =
      (if forallb isWhiteSpace title
       then Already (Rejected (RString "Title is empty"))
       else Awaiting) /\
    requests (exec (handleAddTodo title) s) =
      (if forallb isWhiteSpace title then requests s
       else requests s ++ [CreateTodo (mkNewTodo (trim title) USER_ID false)]) /\
    tempTodo (exec (handleAddTodo title) s) =
      (if forallb isWhiteSpace title then tempTodo s
       else Some (placeholder (trim title))) /\
    (exists pre post,
        title = pre ++ trim title ++ post /\
        forallb isWhiteSpace pre = true /\ forallb isWhiteSpace post = true) /\
    match trim title with [] => True | c :: _ => isWhiteSpace c = false end /\
    match rev (trim title) with [] => True | c :: _ => isWhiteSpace c = false end.
Proof.
  intros title s.
  assert (H3 : result (handleAddTodo title) s =
                 (if forallb isWhiteSpace title
                  then Already (Rejected (RString "Title is empty"))
                  else Awaiting) /\
               requests (exec (handleAddTodo title) s) =
                 (if forallb isWhiteSpace title then requests s
                  else requests s ++
                       [CreateTodo (mkNewTodo (trim title) USER_ID false)]) /\
               tempTodo (exec (handleAddTodo title) s) =
                 (if forallb isWhiteSpace title then tempTodo s
                  else Some (placeholder (trim title)))).
  { destruct (forallb isWhiteSpace title) eqn:W.
    - apply trim_nil in W. unfold result, exec.
      rewrite (handleAddTodo_empty title s W). now repeat split.
    - assert (T : trim title <> []).
      { intros C. apply trim_nil in C. congruence. }
      unfold result, exec.
      rewrite (handleAddTodo_valid title s T). now repeat split. }
  destruct H3 as (A & B & C).
  split; [exact A|]. split; [exact B|]. split; [exact C|].
  split; [apply trim_parts|]. split; [apply trim_first | apply trim_last].
Qed.

(** ** What is sent and what is kept *)

Lemma trim_trimmedText (title : JSString) :
  trim title <> [] -> trimmedText (trim title).
Proof.
  intros H. split; [exact H|]. split; [apply trim_first | apply trim_last].
Qed.

Lemma wellFormed_step (e : Event) (s : State) :
  Forall wellFormedCall (requests s) /\ wellFormedPlaceholder (tempTodo s) ->
  Forall wellFormedCall (requests (step e s)) /\
  wellFormedPlaceholder (tempTodo (step e s)).
Proof.
  intros [HR HT].
  assert (Hcall : forall r, wellFormedCall r ->
                            Forall wellFormedCall (requests s ++ [r])).
  { intros r Hr. apply Forall_app. split; [exact HR | now constructor]. }
  destruct e as [|title|i| |f|b|n r|ms]; try (split; assumption).
  - split; [apply Hcall; exact I | exact HT].
  - unfold step, exec.
    destruct (trim title) as [|c t] eqn:T.
    + rewrite (handleAddTodo_empty title s T). split; assumption.
    + assert (N : trim title <> []) by (rewrite T; discriminate).
      rewrite (handleAddTodo_valid title s N).
      pose proof (trim_trimmedText title N) as W.
      split; [apply Hcall|]; simpl; repeat split; apply W.
  - split; [apply Hcall; exact I | exact HT].
  - unfold step. rewrite handleClearCompletedTodos_exec, callEach_exec. simpl.
    split; [|exact HT].
    apply Forall_app. split; [exact HR|].
    apply Forall_forall. intros r Hr.
    apply in_map_iff in Hr as [j [E _]]. now subst r.
  - split.
    + rewrite settlement_keeps_requests by reflexivity. exact HR.
    + settle_cases s n r; try exact HT; exact I.
  - split.
    + rewrite settlement_keeps_requests by reflexivity. exact HR.
    + unfold step. rewrite elapse_exec, fire_exec.
      destruct (List.filter (fun d => (d <=? now s + ms)%N) (timers s)); exact HT.
Qed.

(** Whatever the user does, every create call made is for the configured
    user, not completed, and carries a title that is not empty and has no
    white space at either end; and the placeholder on display, when there
    is one, has id 0 and the same shape. *)
Theorem created_todos_are_well_formed :
  forall (evs : list Event),
    let s := run evs initialState in
    Forall wellFormedCall (requests s) /\
    wellFormedPlaceholder (tempTodo s).
Proof.
  intros evs.
  apply (run_invariant
           (fun s => Forall wellFormedCall (requests s) /\
                     wellFormedPlaceholder (tempTodo s))
           (fun _ => true)).
  - intros e s _. apply wellFormed_step.
  - apply forallb_true.
  - split; [constructor | exact I].
Qed.

Lemma step_todos_origin (e : Event) (s : State) (t : Todo) :
  In t (todosFromServer (step e s)) ->
  In t (todosFromServer s) \/ In t (deliveredBy e).
Proof.
  destruct e as [|title|i| |f|b|n r|ms]; try (intros H; now left).
  - add_cases title; intros H; now left.
  - unfold step. rewrite handleClearCompletedTodos_exec, callEach_exec.
    intros H; now left.
  - settle_cases s n r; intros H; try (now left); try (now right).
    + apply in_app_or in H as [H|H]; [now left | now right].
    + apply filter_In in H as [H _]. now left.
    + apply filter_In in H as [H _]. now left.
  - unfold step. rewrite elapse_exec, fire_exec.
    destruct (List.filter (fun d => (d <=? now s + ms)%N) (timers s));
      intros H; now left.
Qed.

Lemma todos_origin (evs : list Event) (t : Todo) :
  In t (todosFromServer (run evs initialState)) -> In t (delivered evs).
Proof.
  induction evs as [|e evs IH] using rev_ind; [intros []|].
  rewrite run_snoc. intros H.
  unfold delivered. rewrite flat_map_app. apply in_or_app.
  apply step_todos_origin in H as [H|H].
  - left. now apply IH.
  - right. simpl. now rewrite app_nil_r.
Qed.

(** Every todo in the list was handed over by the server, by the load
    or by a create call that succeeded: the manager puts nothing of its
    own into [todos], the placeholder included. *)
Theorem todos_come_from_server :
  forall (evs : list Event) (todo : Todo),
    In todo (todosFromServer (run evs initialState)) ->
    In todo (delivered evs).
Proof. exact todos_origin. Qed.

Lemma todos_come_from_server_witness :
  let t := mkTodo 7 buy USER_ID false in
  let evs := [Add buy; Settle 0 (Created (Fulfilled t))] in
  In t (todosFromServer (run evs initialState)) /\ In t (delivered evs).
Proof.
  assert (H : In (mkTodo 7 buy USER_ID false)
                (todosFromServer
                   (run [Add buy;
                         Settle 0 (Created (Fulfilled (mkTodo 7 buy USER_ID false)))]
                      initialState))) by (now left).
  split; [exact H|].
  exact (@todos_come_from_server _ _ H).
Defined.

(** If the server never hands over a todo with id 0, no todo in the list
    has id 0: the id of the placeholder stays out of [todos]. *)
Theorem no_placeholder_id_in_todos :
  forall (evs : list Event),
    Forall (fun todo => id todo <> 0%Z) (delivered evs) ->
    Forall (fun todo => id todo <> 0%Z) (todosFromServer (run evs initialState)).
Proof.
  intros evs H. rewrite Forall_forall in *.
  intros t Ht. apply H. now apply todos_origin.
Qed.

Lemma no_placeholder_id_in_todos_witness :
  let evs := [Add buy; Settle 0 (Created (Fulfilled (mkTodo 7 buy USER_ID false)))] in
  Forall (fun todo => id todo <> 0%Z) (delivered evs) /\
  Forall (fun todo => id todo <> 0%Z) (todosFromServer (run evs initialState)).
Proof.
  assert (H : Forall (fun todo => id todo <> 0%Z)
                (delivered [Add buy;
                            Settle 0 (Created (Fulfilled (mkTodo 7 buy USER_ID false)))])).
  { simpl. constructor; [discriminate | constructor]. }
  split; [exact H|].
  exact (@no_placeholder_id_in_todos _ H).
Defined.
